(** * Actor behaviors of packages/core/src/behavior.ts

    A shallow embedding of the five behavior constructors
    ([createCallbackBehavior], [createPromiseBehavior],
    [createObservableBehavior], [createMachineBehavior],
    [createServiceBehavior]) and of the dispatch factory
    [createBehaviorFrom].

    Each constructor of the source returns an object of closures over a few
    mutable variables.  Here the captured variables of a behavior form a
    record, every closure is a computation in a small monad that threads that
    record, collects the externally visible calls it makes, and may throw.
    What the host environment does on its own initiative (a deferred value
    settles, the wrapped function uses a capability it was handed, the nested
    interpreter takes a transition) is an operation of the variant's [Op]
    type, next to the calls of the supervisor.

    Modelling boundary: receivers, observers and disposers are opaque; a call
    to one of them is recorded and does not call back into the behavior. *)

From Stdlib Require Import List ListSet String ZArith Bool Arith Lia.
Import ListNotations.

(** ** Values, events and visible calls *)

Definition Value := Z.
Definition ActorRef := nat.

(** A configuration of a nested machine ([State<TContext, TEvent>]); only its
    identity matters here. *)
Definition MState := nat.

Record ActorContext := { self : ActorRef; name : string }.

Inductive LifecycleSignal := startSignal | stopSignal.

Inductive EventObject :=
| Custom (type : string) (payload : Value)
| DoneInvoke (id : string) (data : option Value)
| ErrorPlatform (id : string) (data : Value)
| Update (state : MState).

(** Modelled from the spec: [doneInvoke] and [error] of actions.ts, which is
    not among the sources.  Completion yields a "done-invoke" event carrying
    the source name and the payload, failure an "error" event carrying the
    source name and the reason. *)
Definition doneInvoke (id : string) (data : option Value) : EventObject :=
  DoneInvoke id data.

Definition error (id : string) (data : Value) : EventObject :=
  ErrorPlatform id data.

(** An event as [receive] gets it: plain, or inside an SCXML envelope. *)
Inductive AnyEvent :=
| Plain (e : EventObject)
| SCXML (data : EventObject) (origin : option ActorRef).

(** Modelled from the spec: [isSCXMLEvent] of utils.ts, which is not among
    the sources; it recognises the envelope. *)
Definition isSCXMLEvent (event : AnyEvent) : bool :=
  match event with SCXML _ _ => true | Plain _ => false end.

(** Modelled from the spec: [toSCXMLEvent] of utils.ts, which is not among
    the sources: the envelope helper that tags a plain value with an origin.
    A value that already is an envelope it hands back as it is, with the
    origin that envelope has, as the helper of the repository does. *)
Definition toSCXMLEvent (event : AnyEvent) (origin : ActorRef) : AnyEvent :=
  match event with
  | Plain e => SCXML e (Some origin)
  | SCXML data o => SCXML data o
  end.

(** An observer: its identity and which of the optional callbacks it has. *)
Record Observer :=
  { oid : nat; on_next : bool; on_error : bool; on_complete : bool }.

Definition Observer_eq_dec (a b : Observer) : {a = b} + {a <> b}.
Proof. decide equality; first [apply Nat.eq_dec | apply bool_dec]. Defined.

Inductive Emitted := Val (v : Value) | Snapshot (s : MState).

(** What is passed to [service.send]: an event, plain or in an envelope. *)
Inductive Sent :=
| Raw (event : AnyEvent).

(** A callback registered with an interpreter: the relay closure of
    [createMachineBehavior] (which captured an actor context), or an observer
    handed to [subscribe]. *)
Inductive Listener :=
| Relay (ctx : ActorContext)
| Outside (o : Observer).

Inductive ServiceCall :=
| COnDone (ctx : ActorContext)
| CSubscribe (l : Listener)
| CUnsubscribe (l : Listener)
| CStart
| CStop
| CSend (m : Sent).

(** The calls a behavior makes on its collaborators.  [ParentSend p e o] is
    [parent.send(toSCXMLEvent(e, { origin: o }))] on the parent [p]. *)
Inductive Effect :=
| ParentSend (parent : ActorRef) (e : EventObject) (origin : ActorRef)
| ReceiverCall (receiver : nat) (e : EventObject)
| DisposeCall
| ObserverNext (o : Observer) (v : Emitted)
| ObserverError (o : Observer) (reason : Value)
| ObserverComplete (o : Observer)
| SourceSubscribe (ctx : ActorContext)
| SourceSubscribeObserver (o : Observer)
| SourceUnsubscribe (ctx : ActorContext)
| Interpret (id : string) (parent : option ActorRef) (sync : bool)
| OnService (c : ServiceCall).

Inductive JsError :=
| TypeError (msg : string)
| Error (msg : string).

(** How a deferred value settles. *)
Inductive Settlement := Fulfilled (v : Value) | Rejected (reason : Value).

(** ** The monad of closures

    A closure body reads and writes the captured variables [S], makes visible
    calls, and returns or throws.  A throw keeps the state and the calls made
    so far: JavaScript does not roll back. *)

Inductive Outcome (S A : Type) :=
| Returns (a : A) (s : S) (out : list Effect)
| Throws (e : JsError) (s : S) (out : list Effect).

Arguments Returns {S A} a s out.
Arguments Throws {S A} e s out.

Definition Act (S A : Type) := S -> Outcome S A.

Definition ret {S A} (a : A) : Act S A := fun s => Returns a s [].

(** An outcome, preceded by the calls made before it. *)
Definition after {S A} (out : list Effect) (o : Outcome S A) : Outcome S A :=
  match o with
  | Returns a s out' => Returns a s (out ++ out')
  | Throws e s out' => Throws e s (out ++ out')
  end.

Definition bind {S A B} (m : Act S A) (k : A -> Act S B) : Act S B :=
  fun s =>
    match m s with
    | Returns a s1 out1 => after out1 (k a s1)
    | Throws e s1 out1 => Throws e s1 out1
    end.

Declare Scope act_scope.
Delimit Scope act_scope with act.
Notation "x <- m ;; k" := (bind m (fun x => k))
  (at level 61, m at next level, right associativity) : act_scope.
Notation "m ;; k" := (bind m (fun _ => k))
  (at level 61, right associativity) : act_scope.
Local Open Scope act_scope.

Definition gets {S A} (f : S -> A) : Act S A := fun s => Returns (f s) s [].
Definition modify {S} (f : S -> S) : Act S unit := fun s => Returns tt (f s) [].
Definition emit {S} (e : Effect) : Act S unit := fun s => Returns tt s [e].
Definition throw {S A} (e : JsError) : Act S A := fun s => Throws e s [].

Definition when {S} (b : bool) (m : Act S unit) : Act S unit :=
  if b then m else ret tt.

Fixpoint forEach {S A} (l : list A) (f : A -> Act S unit) : Act S unit :=
  match l with
  | [] => ret tt
  | x :: l' => f x ;; forEach l' f
  end.

Definition final {S A} (o : Outcome S A) : S :=
  match o with Returns _ s _ => s | Throws _ s _ => s end.

Definition emitted {S A} (o : Outcome S A) : list Effect :=
  match o with Returns _ _ out => out | Throws _ _ out => out end.

(** [parent?.send(toSCXMLEvent(e, { origin }))] *)
Definition parent_send {S} (parent : option ActorRef) (e : EventObject)
  (origin : ActorRef) : Act S unit :=
  match parent with
  | Some p => emit (ParentSend p e origin)
  | None => ret tt
  end.

(** A sequence of operations on one behavior instance.  An operation that
    throws hands the exception to its caller; the instance stays as the throw
    left it and later operations still reach it. *)
Fixpoint run_with {S Op} (step : Op -> Act S unit) (ops : list Op) (s : S)
  : S * list Effect :=
  match ops with
  | [] => (s, [])
  | op :: ops' =>
      let o := step op s in
      let r := run_with step ops' (final o) in
      (fst r, emitted o ++ snd r)
  end.

(** Removal of the [k]-th element. *)
Fixpoint drop_nth {A} (k : nat) (l : list A) : list A :=
  match l, k with
  | [], _ => []
  | _ :: l', O => l'
  | x :: l', S k' => x :: drop_nth k' l'
  end.

(** ** Callback behavior *)

Module Callback.

(** What the wrapped function does with its two capabilities while it
    runs: it sends an event back, or registers a receiver. *)
Inductive Invocation :=
| SendBack (e : EventObject)
| OnReceive (newListener : nat).

(** The shape of the value the wrapped function returns, as [isPromiseLike]
    and [isFunction] see it. *)
Record Disposal := { thenable : bool; callable : bool }.

Definition undefined : Disposal := {| thenable := false; callable := false |}.
Definition isPromiseLike (d : Disposal) : bool := thenable d.
Definition isFunction (d : Disposal) : bool := callable d.

Record InvokeCallback := { body : list Invocation; returned : Disposal }.

(** The captured variables; [continuations] holds the actor contexts of
    the reactions attached by [dispose.then] that have not run yet. *)
Record State :=
  { canceled : bool;
    receivers : set nat;
    dispose : Disposal;
    continuations : list ActorContext }.

Definition set_canceled (b : bool) (s : State) : State :=
  {| canceled := b; receivers := receivers s; dispose := dispose s;
     continuations := continuations s |}.
Definition set_receivers (r : set nat) (s : State) : State :=
  {| canceled := canceled s; receivers := r; dispose := dispose s;
     continuations := continuations s |}.
Definition set_dispose (d : Disposal) (s : State) : State :=
  {| canceled := canceled s; receivers := receivers s; dispose := d;
     continuations := continuations s |}.
Definition set_continuations (k : list ActorContext) (s : State) : State :=
  {| canceled := canceled s; receivers := receivers s; dispose := dispose s;
     continuations := k |}.

Definition init : State :=
  {| canceled := false; receivers := empty_set nat; dispose := undefined;
     continuations := [] |}.

Section Closures.
Variable callback : InvokeCallback.
Variable parent : option ActorRef.

(** [(e) => { if (canceled) return; parent?.send(...) }] *)
Definition sender (ctx : ActorContext) (e : EventObject) : Act State unit :=
  c <- gets canceled ;;
  if c then ret tt else parent_send parent e (self ctx).

(** [(newListener) => { receivers.add(newListener) }] *)
Definition registrar (newListener : nat) : Act State unit :=
  modify (fun s => set_receivers (set_add Nat.eq_dec newListener (receivers s)) s).

(** The two reactions handed to [dispose.then]. *)
Definition onResolved (ctx : ActorContext) (resolved : Value) : Act State unit :=
  parent_send parent (doneInvoke (name ctx) (Some resolved)) (self ctx) ;;
  modify (set_canceled true).

Definition onRejected (ctx : ActorContext) (errorData : Value) : Act State unit :=
  parent_send parent (error (name ctx) errorData) (self ctx) ;;
  modify (set_canceled true).

(** [callback(sender, registrar)] *)
Definition invoke (ctx : ActorContext) : Act State Disposal :=
  forEach (body callback)
    (fun i => match i with
              | SendBack e => sender ctx e
              | OnReceive l => registrar l
              end) ;;
  ret (returned callback).

Definition receive (_ : ActorContext) (event : AnyEvent) : Act State unit :=
  (* isSCXMLEvent(event) ? event.data : event *)
  let plainEvent := match event with SCXML data _ => data | Plain e => e end in
  rs <- gets receivers ;;
  forEach rs (fun receiver => emit (ReceiverCall receiver plainEvent)).

Definition receiveSignal (ctx : ActorContext) (signal : LifecycleSignal)
  : Act State unit :=
  match signal with
  | startSignal =>
      d <- invoke ctx ;;
      modify (set_dispose d) ;;
      when (isPromiseLike d)
        (modify (fun s => set_continuations (continuations s ++ [ctx]) s))
  | stopSignal => ret tt
  end ;;
  match signal with
  | stopSignal =>
      modify (set_canceled true) ;;
      d <- gets dispose ;;
      when (isFunction d) (emit DisposeCall)
  | startSignal => ret tt
  end.

(** The supervisor's calls, and what the environment may do: the wrapped
    function uses a sender or the registrar it was handed, or the
    deferred value behind the [k]-th pending reaction settles and the
    reaction runs. *)
Inductive Op :=
| Signal (ctx : ActorContext) (signal : LifecycleSignal)
| Receive (ctx : ActorContext) (event : AnyEvent)
| Emit (ctx : ActorContext) (e : EventObject)
| Listen (newListener : nat)
| Settle (k : nat) (how : Settlement).

Definition react (k : nat) (how : Settlement) : Act State unit :=
  ks <- gets continuations ;;
  match nth_error ks k with
  | None => ret tt
  | Some ctx =>
      modify (set_continuations (drop_nth k ks)) ;;
      match how with
      | Fulfilled v => onResolved ctx v
      | Rejected r => onRejected ctx r
      end
  end.

Definition step (op : Op) : Act State unit :=
  match op with
  | Signal ctx signal => receiveSignal ctx signal
  | Receive ctx event => receive ctx event
  | Emit ctx e => sender ctx e
  | Listen l => registrar l
  | Settle k how => react k how
  end.

Definition run := run_with step.
End Closures.

End Callback.


(** ** Promise behavior *)

Module Promise.

(** The captured variables; [continuations] holds the actor contexts of the
    reactions attached by [resolvedPromise.then] that have not run yet. *)
Record State :=
  { canceled : bool;
    observers : set Observer;
    continuations : list ActorContext }.

Definition set_canceled (b : bool) (s : State) : State :=
  {| canceled := b; observers := observers s; continuations := continuations s |}.
Definition set_observers (o : set Observer) (s : State) : State :=
  {| canceled := canceled s; observers := o; continuations := continuations s |}.
Definition set_continuations (k : list ActorContext) (s : State) : State :=
  {| canceled := canceled s; observers := observers s; continuations := k |}.

Definition init : State :=
  {| canceled := false; observers := empty_set Observer; continuations := [] |}.

(** The handle [subscribe] returns; its [unsubscribe] removes that observer. *)
Inductive Unsubscribable := Handle (observer : Observer).

Section Closures.
Variable parent : option ActorRef.

(** [(response) => { if (!canceled) { ... } }] *)
Definition onFulfilled (ctx : ActorContext) (response : Value) : Act State unit :=
  c <- gets canceled ;;
  when (negb c)
    (parent_send parent (doneInvoke (name ctx) (Some response)) (self ctx) ;;
     obs <- gets observers ;;
     forEach obs
       (fun observer =>
          when (on_next observer) (emit (ObserverNext observer (Val response))) ;;
          when (on_complete observer) (emit (ObserverComplete observer)))).

(** [(errorData) => { if (!canceled) { ... } }] *)
Definition onRejected (ctx : ActorContext) (errorData : Value) : Act State unit :=
  c <- gets canceled ;;
  when (negb c)
    (let errorEvent := error (name ctx) errorData in
     parent_send parent errorEvent (self ctx) ;;
     obs <- gets observers ;;
     forEach obs
       (fun observer =>
          when (on_error observer) (emit (ObserverError observer errorData)) ;;
          when (on_complete observer) (emit (ObserverComplete observer)))).

Definition receive (_ : ActorContext) (_ : AnyEvent) : Act State unit := ret tt.

Definition receiveSignal (ctx : ActorContext) (signal : LifecycleSignal)
  : Act State unit :=
  match signal with
  | startSignal =>
      (* resolvedPromise.then(onFulfilled, onRejected) *)
      modify (fun s => set_continuations (continuations s ++ [ctx]) s)
  | stopSignal =>
      modify (set_canceled true) ;;
      modify (set_observers (empty_set Observer))
  end.

Definition subscribe (observer : Observer) : Act State Unsubscribable :=
  modify (fun s => set_observers (set_add Observer_eq_dec observer (observers s)) s) ;;
  ret (Handle observer).

Definition unsubscribe (h : Unsubscribable) : Act State unit :=
  match h with
  | Handle observer =>
      modify (fun s => set_observers (set_remove Observer_eq_dec observer (observers s)) s)
  end.

(** The supervisor's calls, and the one thing the environment does: the
    deferred value settles and the [k]-th pending reaction runs. *)
Inductive Op :=
| Signal (ctx : ActorContext) (signal : LifecycleSignal)
| Receive (ctx : ActorContext) (event : AnyEvent)
| Subscribe (observer : Observer)
| Unsubscribe (observer : Observer)
| Settle (k : nat) (how : Settlement).

Definition react (k : nat) (how : Settlement) : Act State unit :=
  ks <- gets continuations ;;
  match nth_error ks k with
  | None => ret tt
  | Some ctx =>
      modify (set_continuations (drop_nth k ks)) ;;
      match how with
      | Fulfilled v => onFulfilled ctx v
      | Rejected r => onRejected ctx r
      end
  end.

Definition step (op : Op) : Act State unit :=
  match op with
  | Signal ctx signal => receiveSignal ctx signal
  | Receive ctx event => receive ctx event
  | Subscribe observer => subscribe observer ;; ret tt
  | Unsubscribe observer => unsubscribe (Handle observer)
  | Settle k how => react k how
  end.

Definition run := run_with step.
End Closures.

End Promise.

(** ** Observable behavior *)

Module Observable.

(** [subscription] is the handle of the latest subscription to the source,
    named by the actor context its three handlers captured. *)
Record State := { subscription : option ActorContext }.

Definition init : State := {| subscription := None |}.

Section Closures.
Variable parent : option ActorRef.

(** The handlers passed to [observable.subscribe]. *)
Definition onValue (ctx : ActorContext) (value : EventObject) : Act State unit :=
  parent_send parent value (self ctx).

Definition onError (ctx : ActorContext) (err : Value) : Act State unit :=
  parent_send parent (error (name ctx) err) (self ctx).

Definition onComplete (ctx : ActorContext) : Act State unit :=
  parent_send parent (doneInvoke (name ctx) None) (self ctx).

Definition receiveSignal (ctx : ActorContext) (signal : LifecycleSignal)
  : Act State unit :=
  match signal with
  | startSignal =>
      emit (SourceSubscribe ctx) ;;
      modify (fun _ => {| subscription := Some ctx |})
  | stopSignal =>
      sub <- gets subscription ;;
      match sub with
      | Some h => emit (SourceUnsubscribe h)
      | None => ret tt
      end
  end.

Definition receive (_ : ActorContext) (_ : AnyEvent) : Act State unit := ret tt.

Definition subscribe (observer : Observer) : Act State unit :=
  emit (SourceSubscribeObserver observer).

(** The supervisor's calls, and what the source may do with the handlers it
    was given by a start with [ctx]: push a value, fail, or complete. *)
Inductive Op :=
| Signal (ctx : ActorContext) (signal : LifecycleSignal)
| Receive (ctx : ActorContext) (event : AnyEvent)
| Subscribe (observer : Observer)
| Next (ctx : ActorContext) (value : EventObject)
| Fail (ctx : ActorContext) (err : Value)
| Complete (ctx : ActorContext).

Definition step (op : Op) : Act State unit :=
  match op with
  | Signal ctx signal => receiveSignal ctx signal
  | Receive ctx event => receive ctx event
  | Subscribe observer => subscribe observer
  | Next ctx value => onValue ctx value
  | Fail ctx err => onError ctx err
  | Complete ctx => onComplete ctx
  end.

Definition run := run_with step.
End Closures.

End Observable.

(** ** The nested interpreter, at its boundary *)

Record MachineNode := { initialState : MState }.

Definition ActorContext_eq_dec (a b : ActorContext) : {a = b} + {a <> b}.
Proof. decide equality; first [apply string_dec | apply Nat.eq_dec]. Defined.

Definition Listener_eq_dec (a b : Listener) : {a = b} + {a <> b}.
Proof. decide equality; first [apply ActorContext_eq_dec | apply Observer_eq_dec]. Defined.

Module Interpreter.

Inductive Status := NotStarted | Running | Stopped.

(** Modelled from the spec: the interpreter of interpreter.ts, which is not
    among the sources.  It is constructed from a definition plus
    [{ parent, id, sync }] and exposes [start()], [stop()], [send(event)],
    [subscribe(observer)] and the completion hook [onDone(handler)].  Only
    what it was told is kept: its options, whether it was started or
    stopped, and the callbacks registered with it.  When and how it steps is
    the environment's business. *)
Record t :=
  { id : string;
    parent : option ActorRef;
    sync : bool;
    status : Status;
    current : MState;
    doneListeners : list ActorContext;
    listeners : list Listener }.

Definition interpret (machine : MachineNode) (id : string)
  (parent : option ActorRef) (sync : bool) : t :=
  {| id := id; parent := parent; sync := sync; status := NotStarted;
     current := initialState machine; doneListeners := []; listeners := [] |}.

Definition set_status (st : Status) (i : t) : t :=
  {| id := id i; parent := parent i; sync := sync i; status := st;
     current := current i; doneListeners := doneListeners i;
     listeners := listeners i |}.
Definition set_current (c : MState) (i : t) : t :=
  {| id := id i; parent := parent i; sync := sync i; status := status i;
     current := c; doneListeners := doneListeners i; listeners := listeners i |}.
Definition set_doneListeners (d : list ActorContext) (i : t) : t :=
  {| id := id i; parent := parent i; sync := sync i; status := status i;
     current := current i; doneListeners := d; listeners := listeners i |}.
Definition set_listeners (l : list Listener) (i : t) : t :=
  {| id := id i; parent := parent i; sync := sync i; status := status i;
     current := current i; doneListeners := doneListeners i; listeners := l |}.

Definition call (c : ServiceCall) (i : t) : t :=
  match c with
  | COnDone ctx => set_doneListeners (doneListeners i ++ [ctx]) i
  | CSubscribe l => set_listeners (set_add Listener_eq_dec l (listeners i)) i
  | CUnsubscribe l => set_listeners (set_remove Listener_eq_dec l (listeners i)) i
  | CStart => set_status Running i
  | CStop => set_status Stopped i
  | CSend _ => i
  end.

End Interpreter.

(** ** Machine behavior *)

Module Machine.

Record InterpreterOptions := { sync : bool }.

(** The captured variables; [None] is the [undefined] of a [let] without
    initialiser. *)
Record State :=
  { service : option Interpreter.t;
    subscription : option Listener }.

Definition set_service (i : option Interpreter.t) (s : State) : State :=
  {| service := i; subscription := subscription s |}.
Definition set_subscription (l : option Listener) (s : State) : State :=
  {| service := service s; subscription := l |}.

Definition init : State := {| service := None; subscription := None |}.

Section Closures.
Variable machine : MachineNode.
Variable parent : option ActorRef.
Variable options : option InterpreterOptions.

(** [options?.sync] *)
Definition options_sync : bool :=
  match options with Some o => sync o | None => false end.

(** A method call [service.m(...)]: a [TypeError] while [service] is
    [undefined]. *)
Definition on_service (c : ServiceCall) : Act State unit :=
  sv <- gets service ;;
  match sv with
  | None => throw (TypeError "Cannot read properties of undefined")
  | Some i =>
      emit (OnService c) ;;
      modify (set_service (Some (Interpreter.call c i)))
  end.

(** [(doneEvent) => { parent?.send(toSCXMLEvent(doneEvent, ...)) }] *)
Definition relayDone (ctx : ActorContext) (doneEvent : EventObject)
  : Act State unit :=
  parent_send parent doneEvent (self ctx).

(** [(state) => { parent?.send(toSCXMLEvent({ type: update, state }, ...)) }] *)
Definition relayUpdate (ctx : ActorContext) (state : MState) : Act State unit :=
  parent_send parent (Update state) (self ctx).

Definition receiveSignal (ctx : ActorContext) (signal : LifecycleSignal)
  : Act State unit :=
  match signal with
  | startSignal =>
      emit (Interpret (name ctx) parent options_sync) ;;
      modify (set_service
                (Some (Interpreter.interpret machine (name ctx) parent options_sync))) ;;
      on_service (COnDone ctx) ;;
      when options_sync
        (on_service (CSubscribe (Relay ctx)) ;;
         modify (set_subscription (Some (Relay ctx)))) ;;
      on_service CStart
  | stopSignal =>
      on_service CStop ;;
      (* subscription && subscription.unsubscribe() *)
      sub <- gets subscription ;;
      match sub with
      | Some l => on_service (CUnsubscribe l)
      | None => ret tt
      end
  end.

Definition receive (_ : ActorContext) (event : AnyEvent) : Act State unit :=
  on_service (CSend (Raw event)).

(** [service?.subscribe(observer)]: [None] is the [undefined] the optional
    chain gives while there is no service. *)
Definition subscribe (observer : Observer) : Act State (option Listener) :=
  sv <- gets service ;;
  match sv with
  | None => ret None
  | Some _ =>
      on_service (CSubscribe (Outside observer)) ;;
      ret (Some (Outside observer))
  end.

(** What a registered listener does when the interpreter notifies it. *)
Definition notify (state : MState) (l : Listener) : Act State unit :=
  match l with
  | Relay ctx => relayUpdate ctx state
  | Outside o => when (on_next o) (emit (ObserverNext o (Snapshot state)))
  end.

(** The environment: a running nested interpreter takes a transition and
    tells its listeners, or reaches its final state and fires the completion
    hooks with the "done-invoke" event that carries its identity and its
    output.  An interpreter that was not started, or was stopped, does
    neither. *)
Definition transition (state : MState) : Act State unit :=
  sv <- gets service ;;
  match sv with
  | Some i =>
      match Interpreter.status i with
      | Interpreter.Running =>
          modify (set_service (Some (Interpreter.set_current state i))) ;;
          forEach (Interpreter.listeners i) (notify state)
      | _ => ret tt
      end
  | None => ret tt
  end.

Definition done (output : option Value) : Act State unit :=
  sv <- gets service ;;
  match sv with
  | Some i =>
      match Interpreter.status i with
      | Interpreter.Running =>
          let doneEvent := doneInvoke (Interpreter.id i) output in
          forEach (Interpreter.doneListeners i) (fun ctx => relayDone ctx doneEvent)
      | _ => ret tt
      end
  | None => ret tt
  end.

Inductive Op :=
| Signal (ctx : ActorContext) (signal : LifecycleSignal)
| Receive (ctx : ActorContext) (event : AnyEvent)
| Subscribe (observer : Observer)
| Transition (state : MState)
| Done (output : option Value).

Definition step (op : Op) : Act State unit :=
  match op with
  | Signal ctx signal => receiveSignal ctx signal
  | Receive ctx event => receive ctx event
  | Subscribe observer => subscribe observer ;; ret tt
  | Transition state => transition state
  | Done output => done output
  end.

Definition run := run_with step.
End Closures.

End Machine.

(** ** Service behavior *)

Module Service.

(** The one captured variable is the wrapped interpreter, created and owned
    elsewhere. *)
Definition State := Interpreter.t.

Definition on_service (c : ServiceCall) : Act State unit :=
  emit (OnService c) ;;
  modify (Interpreter.call c).

Definition receive (ctx : ActorContext) (event : AnyEvent) : Act State unit :=
  on_service (CSend (Raw (toSCXMLEvent event (self ctx)))).

Definition receiveSignal (_ : ActorContext) (_ : LifecycleSignal)
  : Act State unit := ret tt.

Definition subscribe (observer : Observer) : Act State unit :=
  on_service (CSubscribe (Outside observer)).

Inductive Op :=
| Signal (ctx : ActorContext) (signal : LifecycleSignal)
| Receive (ctx : ActorContext) (event : AnyEvent)
| Subscribe (observer : Observer).

Definition step (op : Op) : Act State unit :=
  match op with
  | Signal ctx signal => receiveSignal ctx signal
  | Receive ctx event => receive ctx event
  | Subscribe observer => subscribe observer
  end.

Definition run := run_with step.

End Service.

(** ** The behaviors and the dispatch factory *)

(** A behavior: the variant, what its constructor was given, and its captured
    variables. *)
Inductive Behavior :=
| CallbackBehavior (callback : Callback.InvokeCallback)
    (parent : option ActorRef) (s : Callback.State)
| PromiseBehavior (parent : option ActorRef) (s : Promise.State)
| ObservableBehavior (parent : option ActorRef) (s : Observable.State)
| MachineBehavior (machine : MachineNode) (parent : option ActorRef)
    (options : option Machine.InterpreterOptions) (s : Machine.State)
| ServiceBehavior (s : Service.State).

Definition createCallbackBehavior (callback : Callback.InvokeCallback)
  (parent : option ActorRef) : Behavior :=
  CallbackBehavior callback parent Callback.init.

Definition createPromiseBehavior (parent : option ActorRef) : Behavior :=
  PromiseBehavior parent Promise.init.

Definition createObservableBehavior (parent : option ActorRef) : Behavior :=
  ObservableBehavior parent Observable.init.

Definition createMachineBehavior (machine : MachineNode)
  (parent : option ActorRef) (options : option Machine.InterpreterOptions)
  : Behavior :=
  MachineBehavior machine parent options Machine.init.

Definition createServiceBehavior (service : Interpreter.t) : Behavior :=
  ServiceBehavior service.

(** The [initial] field. *)
Definition initial (b : Behavior) : option Emitted :=
  match b with
  | MachineBehavior machine _ _ _ => Some (Snapshot (initialState machine))
  | ServiceBehavior service => Some (Snapshot (Interpreter.current service))
  | _ => None
  end.

(** A candidate for spawning, by the shapes the factory probes: whether it
    has a [then] method, whether it has a [subscribe] method, the machine
    definition it is if it is one, and what it does as an invoke callback if
    it is a function. *)
Record Spawnable :=
  { promiseLike : bool;
    observable : bool;
    machineNode : option MachineNode;
    invokeCallback : option Callback.InvokeCallback }.

(** Modelled from the spec: the four shape tests of utils.ts and util, which
    are not among the sources. *)
Definition isPromiseLike (entity : Spawnable) : bool := promiseLike entity.
Definition isObservable (entity : Spawnable) : bool := observable entity.
Definition isMachineNode (entity : Spawnable) : bool :=
  match machineNode entity with Some _ => true | None => false end.
Definition isFunction (entity : Spawnable) : bool :=
  match invokeCallback entity with Some _ => true | None => false end.

Inductive Result (A : Type) :=
| Ok (a : A)
| Thrown (e : JsError).

Arguments Ok {A} a.
Arguments Thrown {A} e.

Definition createBehaviorFrom (entity : Spawnable) (parent : option ActorRef)
  : Result Behavior :=
  if isPromiseLike entity then Ok (createPromiseBehavior parent)
  else if isObservable entity then Ok (createObservableBehavior parent)
  else
    match machineNode entity with
    | Some machine => Ok (createMachineBehavior machine parent None)
    | None =>
        match invokeCallback entity with
        | Some callback => Ok (createCallbackBehavior callback parent)
        | None => Thrown (Error "Unable to create behavior from entity")
        end
    end.


(** ** Vocabulary of the properties *)

(** [keeps I R m]: started in a state of [I], the computation [m] ends in a
    state of [I] and makes only calls of [R]. *)
Definition keeps {S A} (I : S -> Prop) (R : Effect -> Prop) (m : Act S A) : Prop :=
  forall s, I s -> I (final (m s)) /\ Forall R (emitted (m s)).

(** The calls a list of calls makes on the parent. *)
Definition to_parent (e : Effect) : bool :=
  match e with ParentSend _ _ _ => true | _ => false end.

(** The calls made on one observer. *)
Definition about (o : Observer) (e : Effect) : bool :=
  match e with
  | ObserverNext o' _ | ObserverError o' _ | ObserverComplete o' =>
      if Observer_eq_dec o o' then true else false
  | _ => false
  end.

(** The calls received by one receiver of a Callback behavior. *)
Definition delivered_to (r : nat) (e : Effect) : bool :=
  match e with ReceiverCall r' _ => Nat.eqb r r' | _ => false end.

Definition is_update (e : Effect) : Prop :=
  match e with ParentSend _ (Update _) _ => True | _ => False end.

(** What a parent, if there is one, gets from one [parent?.send]. *)
Definition sends (parent : option ActorRef) (e : EventObject) (origin : ActorRef)
  : list Effect :=
  match parent with Some p => [ParentSend p e origin] | None => [] end.

(** What an observer gets when the wrapped value resolves with [v]. *)
Definition notifications (v : Value) (observer : Observer) : list Effect :=
  (if on_next observer then [ObserverNext observer (Val v)] else [])
  ++ (if on_complete observer then [ObserverComplete observer] else []).

(** What an observer gets when the wrapped value is rejected with [r]. *)
Definition failure_notifications (r : Value) (observer : Observer) : list Effect :=
  (if on_error observer then [ObserverError observer r] else [])
  ++ (if on_complete observer then [ObserverComplete observer] else []).

(** The receivers a run of the wrapped function's body leaves registered, and
    what it sends back to a parent while the flag is not set. *)
Definition registered (body : list Callback.Invocation) (rs : set nat) : set nat :=
  fold_left
    (fun rs i =>
       match i with
       | Callback.OnReceive l => set_add Nat.eq_dec l rs
       | Callback.SendBack _ => rs
       end) body rs.

Definition sent_back (parent : option ActorRef) (ctx : ActorContext)
  (body : list Callback.Invocation) : list Effect :=
  flat_map
    (fun i =>
       match i with
       | Callback.SendBack e => sends parent e (self ctx)
       | Callback.OnReceive _ => []
       end) body.

(** Operations of a Promise behavior that neither signal nor settle. *)
Definition promise_client (op : Promise.Op) : bool :=
  match op with
  | Promise.Receive _ _ | Promise.Subscribe _ | Promise.Unsubscribe _ => true
  | _ => false
  end.

Definition promise_not_start (op : Promise.Op) : bool :=
  match op with Promise.Signal _ startSignal => false | _ => true end.

Definition promise_not_stop (op : Promise.Op) : bool :=
  match op with Promise.Signal _ stopSignal => false | _ => true end.

Definition callback_not_stop (op : Callback.Op) : bool :=
  match op with Callback.Signal _ stopSignal => false | _ => true end.

(** The settlement of a deferred value on which a reaction is pending. *)
Definition callback_settles (op : Callback.Op) (s : Callback.State) : bool :=
  match op with
  | Callback.Settle k _ => Nat.ltb k (List.length (Callback.continuations s))
  | _ => false
  end.

(** What a listener of the nested interpreter makes of a new state. *)
Definition heard (parent : option ActorRef) (state : MState) (l : Listener)
  : list Effect :=
  match l with
  | Relay ctx => sends parent (Update state) (self ctx)
  | Outside o => if on_next o then [ObserverNext o (Snapshot state)] else []
  end.

Definition is_relay (l : Listener) : bool :=
  match l with Relay _ => true | Outside _ => false end.

(** The hooks of [receiveSignal(start)] are in place: a completion hook, and
    with the sync option a relay of the states. *)
Definition hooked (sync : bool) (i : Interpreter.t) : Prop :=
  Interpreter.doneListeners i <> []
  /\ (sync = true -> existsb is_relay (Interpreter.listeners i) = true).

Definition machine_not_start (op : Machine.Op) : bool :=
  match op with Machine.Signal _ startSignal => false | _ => true end.

(** ** Sample inputs *)

Definition sample_ctx : ActorContext := {| self := 7; name := "child" |}.

Definition sample_observer (n : nat) : Observer :=
  {| oid := n; on_next := true; on_error := true; on_complete := true |}.

(** A wrapped function that does nothing by itself and returns a deferred
    value. *)
Definition deferred_callback : Callback.InvokeCallback :=
  {| Callback.body := [];
     Callback.returned := {| Callback.thenable := true; Callback.callable := false |} |}.

(** A wrapped function that registers two receivers (one of them twice) and
    returns a disposer. *)
Definition listening_callback : Callback.InvokeCallback :=
  {| Callback.body := [Callback.OnReceive 1; Callback.OnReceive 2; Callback.OnReceive 1];
     Callback.returned := {| Callback.thenable := false; Callback.callable := true |} |}.

Definition sample_machine : MachineNode := {| initialState := 0 |}.

(** A candidate with every shape at once, one that is only a stream and a
    function, and one with no shape the factory knows. *)
Definition every_shape : Spawnable :=
  {| promiseLike := true; observable := true;
     machineNode := Some sample_machine;
     invokeCallback := Some listening_callback |}.

Definition stream_and_function : Spawnable :=
  {| promiseLike := false; observable := true;
     machineNode := None;
     invokeCallback := Some listening_callback |}.

Definition machine_and_function : Spawnable :=
  {| promiseLike := false; observable := false;
     machineNode := Some sample_machine;
     invokeCallback := Some listening_callback |}.

Definition only_function : Spawnable :=
  {| promiseLike := false; observable := false;
     machineNode := None;
     invokeCallback := Some listening_callback |}.

Definition no_shape : Spawnable :=
  {| promiseLike := false; observable := false;
     machineNode := None; invokeCallback := None |}.

(** ** Vocabulary of the further properties *)

Definition is_dispose (e : Effect) : bool :=
  match e with DisposeCall => true | _ => false end.

Definition callback_not_settle (op : Callback.Op) : bool :=
  match op with Callback.Settle _ _ => false | _ => true end.

(** The number of stop signals of a Callback run that come after a start;
    [started] tells whether a start came before the run. *)
Fixpoint stops_after_start (started : bool) (ops : list Callback.Op) : nat :=
  match ops with
  | [] => 0
  | Callback.Signal _ startSignal :: ops' => stops_after_start true ops'
  | Callback.Signal _ stopSignal :: ops' =>
      (if started then 1 else 0) + stops_after_start started ops'
  | _ :: ops' => stops_after_start started ops'
  end.

(** Whether a computation returned rather than threw. *)
Definition returned_normally {S A} (o : Outcome S A) : bool :=
  match o with Returns _ _ _ => true | Throws _ _ _ => false end.

(** Operations of a Machine behavior other than lifecycle signals. *)
Definition machine_no_signal (op : Machine.Op) : bool :=
  match op with Machine.Signal _ _ => false | _ => true end.



(** The actor context of the last start of an Observable run, [before] being
    the one of the starts before the run. *)
Fixpoint last_start (before : option ActorContext) (ops : list Observable.Op)
  : option ActorContext :=
  match ops with
  | [] => before
  | Observable.Signal ctx startSignal :: ops' => last_start (Some ctx) ops'
  | _ :: ops' => last_start before ops'
  end.

(** Whether any of the four shape tests of the factory passes. *)
Definition some_shape (entity : Spawnable) : bool :=
  isPromiseLike entity || isObservable entity
  || isMachineNode entity || isFunction entity.

(** A wrapped function that sends an event back, registers a receiver, sends
    again, and returns a disposer. *)
Definition chatty_callback : Callback.InvokeCallback :=
  {| Callback.body := [Callback.SendBack (Custom "hello" 1%Z);
                       Callback.OnReceive 4;
                       Callback.SendBack (Custom "again" 2%Z)];
     Callback.returned := {| Callback.thenable := false; Callback.callable := true |} |}.

(** Operations of a Callback behavior that neither signal nor settle. *)
Definition callback_quiet (op : Callback.Op) : bool :=
  match op with
  | Callback.Receive _ _ | Callback.Emit _ _ | Callback.Listen _ => true
  | _ => false
  end.

(** The actor context of the last start of a Machine run, [before] being the
    one of the starts before the run. *)
Fixpoint machine_last_start (before : option ActorContext) (ops : list Machine.Op)
  : option ActorContext :=
  match ops with
  | [] => before
  | Machine.Signal ctx startSignal :: ops' => machine_last_start (Some ctx) ops'
  | _ :: ops' => machine_last_start before ops'
  end.



(** Operations of a Promise behavior that do not register [o]. *)
Definition promise_keeps_out (o : Observer) (op : Promise.Op) : bool :=
  match op with
  | Promise.Subscribe o' => if Observer_eq_dec o o' then false else true
  | _ => true
  end.


(** * Properties *)

(** ** The monad and runs *)

Lemma run_with_app {S Op} (step : Op -> Act S unit) (a b : list Op) (s : S) :
  run_with step (a ++ b) s =
  (fst (run_with step b (fst (run_with step a s))),
   snd (run_with step a s) ++ snd (run_with step b (fst (run_with step a s)))).
Proof.
  revert s; induction a as [|op a IH]; intros s; simpl.
  - destruct (run_with step b s); reflexivity.
  - rewrite IH; simpl. now rewrite app_assoc.
Qed.

Lemma forEach_emit {S A} (f : A -> Effect) (l : list A) (s : S) :
  forEach l (fun x => emit (f x)) s = Returns tt s (map f l).
Proof.
  induction l as [|x l IH]; simpl; [reflexivity|].
  unfold bind at 1. unfold emit at 1. now rewrite IH.
Qed.

Lemma after_nil {S A} (o : Outcome S A) : after [] o = o.
Proof. now destruct o. Qed.

Lemma final_after {S A} out (o : Outcome S A) : final (after out o) = final o.
Proof. now destruct o. Qed.

Lemma emitted_after {S A} out (o : Outcome S A) :
  emitted (after out o) = out ++ emitted o.
Proof. now destruct o. Qed.

Lemma bind_ret {S A B} (a : A) (k : A -> Act S B) s : bind (ret a) k s = k a s.
Proof. unfold bind, ret. apply after_nil. Qed.

Lemma bind_gets {S A B} (f : S -> A) (k : A -> Act S B) s :
  bind (gets f) k s = k (f s) s.
Proof. unfold bind, gets. apply after_nil. Qed.

Lemma bind_modify {S B} (f : S -> S) (k : unit -> Act S B) s :
  bind (modify f) k s = k tt (f s).
Proof. unfold bind, modify. apply after_nil. Qed.

Lemma bind_emit {S B} (e : Effect) (k : unit -> Act S B) s :
  bind (emit e) k s = after [e] (k tt s).
Proof. reflexivity. Qed.

Lemma bind_throw {S A B} (e : JsError) (k : A -> Act S B) s :
  bind (throw e) k s = Throws e s [].
Proof. reflexivity. Qed.

Lemma bind_Returns {S A B} (m : Act S A) (k : A -> Act S B) s a s1 o1 b s2 o2 :
  m s = Returns a s1 o1 -> k a s1 = Returns b s2 o2 ->
  bind m k s = Returns b s2 (o1 ++ o2).
Proof. intros Hm Hk. unfold bind. now rewrite Hm, Hk. Qed.

Lemma parent_send_eq {S} parent (e : EventObject) (o : ActorRef) (s : S) :
  parent_send parent e o s = Returns tt s (sends parent e o).
Proof. unfold parent_send, sends. now destruct parent. Qed.

Section Keeps.
Context {S : Type} (I : S -> Prop) (R : Effect -> Prop).

Lemma keeps_ret {A} (a : A) : keeps I R (ret a).
Proof. intros s Hs; simpl; auto. Qed.

Lemma keeps_gets {A} (f : S -> A) : keeps I R (gets f).
Proof. intros s Hs; simpl; auto. Qed.

Lemma keeps_throw {A} (e : JsError) : keeps I R (@throw S A e).
Proof. intros s Hs; simpl; auto. Qed.

Lemma keeps_modify (f : S -> S) : (forall s, I s -> I (f s)) -> keeps I R (modify f).
Proof. intros Hf s Hs; simpl; auto. Qed.

Lemma keeps_emit (e : Effect) : R e -> keeps I R (emit e).
Proof. intros He s Hs; simpl; auto. Qed.

Lemma keeps_bind {A B} (m : Act S A) (k : A -> Act S B) :
  keeps I R m -> (forall a, keeps I R (k a)) -> keeps I R (bind m k).
Proof.
  intros Hm Hk s Hs. unfold bind.
  destruct (Hm s Hs) as [H1 H2].
  destruct (m s) as [a s1 o1 | e s1 o1]; simpl in *; [|auto].
  destruct (Hk a s1 H1) as [H3 H4].
  rewrite final_after, emitted_after. split; auto. apply Forall_app; auto.
Qed.

Lemma keeps_read {A B} (f : S -> A) (k : A -> Act S B) :
  (forall s, I s -> I (final (k (f s) s)) /\ Forall R (emitted (k (f s) s))) ->
  keeps I R (bind (gets f) k).
Proof.
  intros H s Hs. rewrite bind_gets. auto.
Qed.

Lemma keeps_when (b : bool) (m : Act S unit) : keeps I R m -> keeps I R (when b m).
Proof. destruct b; simpl; auto using keeps_ret. Qed.

Lemma keeps_forEach {A} (l : list A) (f : A -> Act S unit) :
  (forall x, keeps I R (f x)) -> keeps I R (forEach l f).
Proof.
  intros Hf; induction l; simpl; auto using keeps_ret, keeps_bind.
Qed.

Lemma keeps_parent_send (parent : option ActorRef) (e : EventObject) (o : ActorRef) :
  (forall p, parent = Some p -> R (ParentSend p e o)) ->
  keeps I R (parent_send (S := S) parent e o).
Proof.
  intros H. destruct parent; simpl; auto using keeps_ret, keeps_emit.
Qed.

Lemma keeps_run {Op} (step : Op -> Act S unit) :
  (forall op, keeps I R (step op)) ->
  forall ops s, I s ->
    I (fst (run_with step ops s)) /\ Forall R (snd (run_with step ops s)).
Proof.
  intros Hstep; induction ops as [|op ops IH]; intros s Hs; simpl; [auto|].
  destruct (Hstep op s Hs) as [H1 H2].
  destruct (IH _ H1) as [H3 H4].
  split; auto. apply Forall_app; auto.
Qed.
End Keeps.

Lemma Forall_nothing {A} (l : list A) : Forall (fun _ => False) l -> l = [].
Proof. destruct l; auto. intros H; inversion H; contradiction. Qed.


(** ** Promise behavior *)

Section PromiseFacts.
Variable parent : option ActorRef.

Lemma promise_notify_all v (obs : list Observer) (s : Promise.State) :
  forEach obs
    (fun observer =>
       bind (when (on_next observer) (emit (ObserverNext observer (Val v))))
            (fun _ => when (on_complete observer) (emit (ObserverComplete observer)))) s
  = Returns tt s (flat_map (notifications v) obs).
Proof.
  induction obs as [|o obs IH]; simpl; [reflexivity|].
  apply bind_Returns with (a := tt) (s1 := s); [|exact IH].
  unfold notifications. destruct (on_next o), (on_complete o); reflexivity.
Qed.

Lemma promise_fail_all r (obs : list Observer) (s : Promise.State) :
  forEach obs
    (fun observer =>
       bind (when (on_error observer) (emit (ObserverError observer r)))
            (fun _ => when (on_complete observer) (emit (ObserverComplete observer)))) s
  = Returns tt s (flat_map (failure_notifications r) obs).
Proof.
  induction obs as [|o obs IH]; simpl; [reflexivity|].
  apply bind_Returns with (a := tt) (s1 := s); [|exact IH].
  unfold failure_notifications. destruct (on_error o), (on_complete o); reflexivity.
Qed.

Lemma promise_onFulfilled_eq ctx v s :
  Promise.onFulfilled parent ctx v s =
  Returns tt s
    (if Promise.canceled s then []
     else sends parent (doneInvoke (name ctx) (Some v)) (self ctx)
          ++ flat_map (notifications v) (Promise.observers s)).
Proof.
  unfold Promise.onFulfilled. rewrite bind_gets.
  destruct (Promise.canceled s); [reflexivity|]. simpl when.
  apply bind_Returns with (a := tt) (s1 := s); [apply parent_send_eq|].
  rewrite bind_gets. apply promise_notify_all.
Qed.

Lemma promise_onRejected_eq ctx r s :
  Promise.onRejected parent ctx r s =
  Returns tt s
    (if Promise.canceled s then []
     else sends parent (error (name ctx) r) (self ctx)
          ++ flat_map (failure_notifications r) (Promise.observers s)).
Proof.
  unfold Promise.onRejected. rewrite bind_gets.
  destruct (Promise.canceled s); [reflexivity|]. simpl when.
  apply bind_Returns with (a := tt) (s1 := s); [apply parent_send_eq|].
  rewrite bind_gets. apply promise_fail_all.
Qed.

(** A settlement with no reaction at that place does nothing; otherwise the
    reaction leaves the pending ones and runs. *)
Lemma promise_react_eq k how s :
  Promise.react parent k how s =
  match nth_error (Promise.continuations s) k with
  | None => Returns tt s []
  | Some ctx =>
      let s' := Promise.set_continuations (drop_nth k (Promise.continuations s)) s in
      Returns tt s'
        (if Promise.canceled s then []
         else match how with
              | Fulfilled v =>
                  sends parent (doneInvoke (name ctx) (Some v)) (self ctx)
                  ++ flat_map (notifications v) (Promise.observers s)
              | Rejected r =>
                  sends parent (error (name ctx) r) (self ctx)
                  ++ flat_map (failure_notifications r) (Promise.observers s)
              end)
  end.
Proof.
  unfold Promise.react. rewrite bind_gets.
  destruct (nth_error (Promise.continuations s) k) as [ctx|]; [|reflexivity].
  rewrite bind_modify.
  destruct how; [rewrite promise_onFulfilled_eq | rewrite promise_onRejected_eq];
    simpl; destruct (Promise.canceled s); reflexivity.
Qed.

(** Once the flag is set, no operation clears it or makes any call. *)
Lemma promise_step_canceled op :
  keeps (fun s => Promise.canceled s = true) (fun _ => False) (Promise.step parent op).
Proof.
  intros s Hs. destruct op as [ctx [|] | ctx ev | o | o | k how]; simpl; auto.
  rewrite promise_react_eq.
  destruct (nth_error (Promise.continuations s) k); simpl; rewrite ?Hs; auto.
Qed.

(** The observer set never holds an observer twice. *)
Lemma promise_step_nodup op :
  keeps (fun s => NoDup (Promise.observers s)) (fun _ => True) (Promise.step parent op).
Proof.
  intros s Hs. split; [|apply Forall_forall; auto].
  destruct op as [ctx [|] | ctx ev | o | o | k how]; simpl; auto.
  - constructor.
  - now apply set_add_nodup.
  - now apply set_remove_nodup.
  - rewrite promise_react_eq.
    destruct (nth_error (Promise.continuations s) k); simpl; auto.
Qed.

(** Receive, subscribe and unsubscribe make no call and touch neither the
    flag nor the pending reactions. *)
Lemma promise_client_run ops s :
  forallb promise_client ops = true ->
  snd (Promise.run parent ops s) = []
  /\ Promise.canceled (fst (Promise.run parent ops s)) = Promise.canceled s
  /\ Promise.continuations (fst (Promise.run parent ops s)) = Promise.continuations s.
Proof.
  revert s; induction ops as [|op ops IH]; intros s H; [simpl; auto|].
  simpl in H. apply andb_prop in H as [Hop Hops].
  specialize (IH (final (Promise.step parent op s)) Hops).
  unfold Promise.run in *. simpl. destruct IH as (-> & -> & ->).
  destruct op; try discriminate; simpl; auto.
Qed.

(** With no reaction pending and no further start, nothing is ever called. *)
Lemma promise_step_spent op :
  promise_not_start op = true ->
  keeps (fun s => Promise.continuations s = []) (fun _ => False) (Promise.step parent op).
Proof.
  intros Hop s Hs. destruct op as [ctx [|] | ctx ev | o | o | k how];
    try discriminate; simpl; auto.
  rewrite promise_react_eq, Hs. destruct k; simpl; auto.
Qed.

Lemma promise_spent_run ops s :
  forallb promise_not_start ops = true ->
  Promise.continuations s = [] ->
  snd (Promise.run parent ops s) = [].
Proof.
  revert s; induction ops as [|op ops IH]; intros s H Hs; simpl in *; auto.
  apply andb_prop in H as [Hop Hops].
  destruct (promise_step_spent op Hop s Hs) as [H1 H2].
  apply Forall_nothing in H2. unfold Promise.run in *. rewrite H2. simpl. now apply IH.
Qed.

End PromiseFacts.

Lemma about_notifications_same v o :
  filter (about o) (notifications v o) = notifications v o.
Proof.
  unfold notifications.
  destruct (on_next o), (on_complete o); simpl;
    destruct (Observer_eq_dec o o); try reflexivity; contradiction.
Qed.

Lemma about_notifications_other v o o' :
  o <> o' -> filter (about o) (notifications v o') = [].
Proof.
  intros H. unfold notifications.
  destruct (on_next o'), (on_complete o'); simpl;
    destruct (Observer_eq_dec o o'); try reflexivity; contradiction.
Qed.

Lemma about_notified_absent v o l :
  ~ In o l -> filter (about o) (flat_map (notifications v) l) = [].
Proof.
  induction l as [|x l IH]; intros H; simpl; [reflexivity|].
  rewrite filter_app, about_notifications_other, IH; auto.
  - intros Hin; apply H; now right.
  - intros ->; apply H; now left.
Qed.

(** In one pass over a duplicate-free observer set, a registered observer
    gets its own notifications and nothing else. *)
Lemma about_notified_once v o l :
  NoDup l -> In o l ->
  filter (about o) (flat_map (notifications v) l) = notifications v o.
Proof.
  induction 1 as [|x l Hx Hl IH]; intros Hin; [contradiction|].
  simpl. rewrite filter_app. destruct Hin as [->|Hin].
  - rewrite about_notifications_same, about_notified_absent by assumption.
    apply app_nil_r.
  - rewrite about_notifications_other, IH; auto.
    intros ->; contradiction.
Qed.

Lemma to_parent_notifications v l :
  filter to_parent (flat_map (notifications v) l) = [].
Proof.
  induction l as [|x l IH]; simpl; [reflexivity|].
  rewrite filter_app, IH. unfold notifications.
  destruct (on_next x), (on_complete x); reflexivity.
Qed.

Lemma no_error_in_notifications v l o r :
  ~ In (ObserverError o r) (flat_map (notifications v) l).
Proof.
  rewrite in_flat_map. intros (x & _ & H). unfold notifications in H.
  destruct (on_next x), (on_complete x); simpl in H;
    repeat (destruct H as [H|H]; try discriminate); auto.
Qed.

Lemma promise_observers_nodup parent ops :
  NoDup (Promise.observers (fst (Promise.run parent ops Promise.init))).
Proof.
  apply (keeps_run _ _ _ (promise_step_nodup parent) ops Promise.init). constructor.
Qed.

(** C2.  Promise behavior: once [receiveSignal(stop)] has been processed,
    whatever happened before it and whatever happens after it (in particular
    the wrapped value resolving or rejecting), the list of calls on the parent
    and on the observers is what it was before the stop: no "done" or "error"
    event is sent and no observer is notified. *)
Theorem promise_stop_suppresses_settlement :
  forall (parent : option ActorRef) (before : list Promise.Op)
         (ctx : ActorContext) (later : list Promise.Op),
    snd (Promise.run parent
           (before ++ Promise.Signal ctx stopSignal :: later) Promise.init)
    = snd (Promise.run parent before Promise.init).
Proof.
  intros parent before ctx later. unfold Promise.run.
  rewrite run_with_app. simpl.
  set (s := fst (run_with (Promise.step parent) before Promise.init)).
  destruct (keeps_run _ _ _ (promise_step_canceled parent) later
              (Promise.set_observers (empty_set Observer) (Promise.set_canceled true s)))
    as [_ H]; [reflexivity|].
  apply Forall_nothing in H. rewrite H. apply app_nil_r.
Qed.

(** C4.  Promise behavior started once and not stopped before the wrapped
    value resolves with [v]: the calls of its whole life are the "done" event
    to the parent (if there is a parent) followed by one pass over the
    observers registered at settlement time.  So the parent gets exactly one
    message, the "done" event; each of those observers gets exactly one [next]
    (if it has that callback) followed by exactly one [complete] (if it has
    that callback); and no observer ever gets [error]. *)
Theorem promise_exactly_once_settlement :
  forall (parent : option ActorRef) (ctx : ActorContext) (v : Value)
         (before between later : list Promise.Op),
    forallb promise_client before = true ->
    forallb promise_client between = true ->
    forallb promise_not_start later = true ->
    let settling :=
      fst (Promise.run parent
             (before ++ Promise.Signal ctx startSignal :: between) Promise.init) in
    let trace :=
      snd (Promise.run parent
             (before ++ Promise.Signal ctx startSignal :: between
                ++ Promise.Settle 0 (Fulfilled v) :: later) Promise.init) in
    trace = sends parent (doneInvoke (name ctx) (Some v)) (self ctx)
            ++ flat_map (notifications v) (Promise.observers settling)
    /\ (forall p, parent = Some p ->
          filter to_parent trace
          = [ParentSend p (doneInvoke (name ctx) (Some v)) (self ctx)])
    /\ (forall o, In o (Promise.observers settling) ->
          filter (about o) trace
          = (if on_next o then [ObserverNext o (Val v)] else [])
            ++ (if on_complete o then [ObserverComplete o] else []))
    /\ (forall o r, ~ In (ObserverError o r) trace).
Proof.
  intros parent ctx v before between later Hb Hm Ha settling trace.
  assert (Htrace : trace = sends parent (doneInvoke (name ctx) (Some v)) (self ctx)
            ++ flat_map (notifications v) (Promise.observers settling)).
  { subst trace settling. unfold Promise.run.
    rewrite !run_with_app. cbn [run_with fst snd].
    rewrite !run_with_app. cbn [run_with fst snd].
    destruct (promise_client_run parent before Promise.init Hb) as (E0 & C0 & K0).
    unfold Promise.run in *. rewrite E0.
    set (s0 := fst (run_with (Promise.step parent) before Promise.init)) in *.
    set (s1 := final (Promise.step parent (Promise.Signal ctx startSignal) s0)).
    destruct (promise_client_run parent between s1 Hm) as (E1 & C1 & K1).
    unfold Promise.run in *. rewrite E1.
    set (s2 := fst (run_with (Promise.step parent) between s1)) in *.
    assert (C2 : Promise.canceled s2 = false) by (rewrite C1; simpl; now rewrite C0).
    assert (K2 : Promise.continuations s2 = [ctx])
      by (rewrite K1; simpl; now rewrite K0).
    cbn [Promise.step]. rewrite promise_react_eq, K2, C2. cbn [nth_error drop_nth].
    cbn [final emitted].
    pose proof (promise_spent_run parent later (Promise.set_continuations [] s2)
                  Ha eq_refl) as E3.
    unfold Promise.run in E3. rewrite E3.
    simpl. now rewrite !app_nil_r. }
  split; [exact Htrace|]. rewrite Htrace. repeat split.
  - intros p ->. simpl. now rewrite to_parent_notifications.
  - intros o Hin. rewrite filter_app.
    rewrite about_notified_once; auto; [|apply promise_observers_nodup].
    destruct parent; reflexivity.
  - intros o r H. apply in_app_or in H as [H|H].
    + destruct parent; simpl in H; [destruct H as [H|[]]; discriminate|contradiction].
    + exact (no_error_in_notifications _ _ _ _ H).
Qed.


(** ** Callback behavior *)

Section CallbackFacts.
Variable callback : Callback.InvokeCallback.
Variable parent : option ActorRef.

Lemma callback_sender_eq ctx e s :
  Callback.sender parent ctx e s =
  Returns tt s (if Callback.canceled s then [] else sends parent e (self ctx)).
Proof.
  unfold Callback.sender. rewrite bind_gets.
  destruct (Callback.canceled s); [reflexivity | apply parent_send_eq].
Qed.

Lemma callback_body_eq ctx body s :
  forEach body
    (fun i => match i with
              | Callback.SendBack e => Callback.sender parent ctx e
              | Callback.OnReceive l => Callback.registrar l
              end) s
  = Returns tt (Callback.set_receivers (registered body (Callback.receivers s)) s)
      (if Callback.canceled s then [] else sent_back parent ctx body).
Proof.
  revert s; induction body as [|i body IH]; intros s.
  - destruct s, canceled; reflexivity.
  - cbn [forEach]. destruct i as [e|l].
    + eapply eq_trans;
        [apply bind_Returns with (a := tt) (s1 := s);
         [apply callback_sender_eq | apply IH]|].
      simpl. destruct (Callback.canceled s); reflexivity.
    + unfold Callback.registrar. rewrite bind_modify, IH. simpl. reflexivity.
Qed.

Lemma callback_invoke_eq ctx s :
  Callback.invoke callback parent ctx s
  = Returns (Callback.returned callback)
      (Callback.set_receivers
         (registered (Callback.body callback) (Callback.receivers s)) s)
      (if Callback.canceled s then []
       else sent_back parent ctx (Callback.body callback)).
Proof.
  unfold Callback.invoke.
  eapply eq_trans;
    [eapply bind_Returns; [apply callback_body_eq | reflexivity]|].
  now rewrite app_nil_r.
Qed.

Lemma callback_start_eq ctx s :
  Callback.receiveSignal callback parent ctx startSignal s
  = let d := Callback.returned callback in
    let s1 := Callback.set_dispose d
                (Callback.set_receivers
                   (registered (Callback.body callback) (Callback.receivers s)) s) in
    Returns tt
      (if Callback.isPromiseLike d
       then Callback.set_continuations (Callback.continuations s1 ++ [ctx]) s1
       else s1)
      (if Callback.canceled s then []
       else sent_back parent ctx (Callback.body callback)).
Proof.
  unfold Callback.receiveSignal.
  cbv zeta.
  match goal with |- _ = Returns tt ?s' ?o =>
    eapply eq_trans;
      [apply bind_Returns with (a := tt) (s1 := s') (o1 := o); [|reflexivity]|
       now rewrite app_nil_r]
  end.
  eapply eq_trans;
    [eapply bind_Returns; [apply callback_invoke_eq|]|now rewrite app_nil_r].
  rewrite bind_modify.
  destruct (Callback.isPromiseLike (Callback.returned callback)); reflexivity.
Qed.

Lemma callback_stop_eq ctx s :
  Callback.receiveSignal callback parent ctx stopSignal s
  = Returns tt (Callback.set_canceled true s)
      (if Callback.isFunction (Callback.dispose s) then [DisposeCall] else []).
Proof.
  unfold Callback.receiveSignal. rewrite bind_ret, bind_modify, bind_gets.
  simpl. destruct (Callback.isFunction (Callback.dispose s)); reflexivity.
Qed.

Lemma callback_receive_eq ctx event s :
  Callback.receive ctx event s
  = Returns tt s
      (map (fun r => ReceiverCall r
                       match event with SCXML data _ => data | Plain e => e end)
           (Callback.receivers s)).
Proof.
  unfold Callback.receive. cbv zeta. rewrite bind_gets. apply forEach_emit.
Qed.

(** The reaction to a settlement sends to the parent whatever the flag says,
    and sets the flag afterwards. *)
Lemma callback_react_eq k how s :
  Callback.react parent k how s =
  match nth_error (Callback.continuations s) k with
  | None => Returns tt s []
  | Some ctx =>
      Returns tt
        (Callback.set_canceled true
           (Callback.set_continuations (drop_nth k (Callback.continuations s)) s))
        (sends parent
           match how with
           | Fulfilled v => doneInvoke (name ctx) (Some v)
           | Rejected r => error (name ctx) r
           end (self ctx))
  end.
Proof.
  unfold Callback.react. rewrite bind_gets.
  destruct (nth_error (Callback.continuations s) k) as [ctx|]; [|reflexivity].
  rewrite bind_modify.
  destruct how; unfold Callback.onResolved, Callback.onRejected;
    (eapply eq_trans;
       [eapply bind_Returns; [apply parent_send_eq | reflexivity]
       | now rewrite app_nil_r]).
Qed.

Lemma registered_nodup body rs : NoDup rs -> NoDup (registered body rs).
Proof.
  revert rs; induction body as [|[e|l] body IH]; intros rs H; simpl; auto.
  apply IH. now apply set_add_nodup.
Qed.

(** The receiver set never holds a receiver twice. *)
Lemma callback_step_nodup op :
  keeps (fun s => NoDup (Callback.receivers s)) (fun _ => True)
    (Callback.step callback parent op).
Proof.
  intros s Hs. split; [|apply Forall_forall; auto].
  destruct op as [ctx [|] | ctx ev | ctx e | l | k how]; cbn [Callback.step].
  - rewrite callback_start_eq. cbv zeta.
    destruct (Callback.isPromiseLike _); simpl; now apply registered_nodup.
  - rewrite callback_stop_eq. exact Hs.
  - rewrite callback_receive_eq. exact Hs.
  - rewrite callback_sender_eq. exact Hs.
  - simpl. now apply set_add_nodup.
  - rewrite callback_react_eq.
    destruct (nth_error (Callback.continuations s) k); exact Hs.
Qed.

Lemma callback_receivers_nodup ops :
  NoDup (Callback.receivers (fst (Callback.run callback parent ops Callback.init))).
Proof.
  apply (keeps_run _ _ _ callback_step_nodup ops Callback.init). constructor.
Qed.

(** Once the flag is set, nothing clears it. *)
Lemma callback_step_canceled op :
  keeps (fun s => Callback.canceled s = true) (fun _ => True)
    (Callback.step callback parent op).
Proof.
  intros s Hs. split; [|apply Forall_forall; auto].
  destruct op as [ctx [|] | ctx ev | ctx e | l | k how]; cbn [Callback.step].
  - rewrite callback_start_eq. cbv zeta.
    destruct (Callback.isPromiseLike _); exact Hs.
  - rewrite callback_stop_eq. reflexivity.
  - rewrite callback_receive_eq. exact Hs.
  - rewrite callback_sender_eq. exact Hs.
  - exact Hs.
  - rewrite callback_react_eq.
    destruct (nth_error (Callback.continuations s) k); auto.
Qed.

End CallbackFacts.

Lemma delivered_absent r e l :
  ~ In r l -> filter (delivered_to r) (map (fun x => ReceiverCall x e) l) = [].
Proof.
  induction l as [|x l IH]; intros H; simpl; [reflexivity|].
  destruct (Nat.eqb_spec r x) as [->|_].
  - exfalso; apply H; now left.
  - apply IH. intros Hin; apply H; now right.
Qed.

Lemma delivered_once r e l :
  NoDup l -> In r l ->
  filter (delivered_to r) (map (fun x => ReceiverCall x e) l) = [ReceiverCall r e].
Proof.
  induction 1 as [|x l Hx Hl IH]; intros Hin; [contradiction|].
  simpl. destruct (Nat.eqb_spec r x) as [->|Hne].
  - now rewrite delivered_absent.
  - destruct Hin as [->|Hin]; [contradiction | now apply IH].
Qed.

(** C1.  Callback behavior whose wrapped function returns a deferred value:
    after [receiveSignal(start)] and [receiveSignal(stop)] the flag is set,
    and yet the settlement of the deferred value sends the "done" (or
    "error") event to the parent.  The reactions attached by [dispose.then]
    do not look at the flag. *)
Theorem callback_settlement_after_stop_reaches_parent :
  forall (callback : Callback.InvokeCallback) (p : ActorRef)
         (ctx : ActorContext) (how : Settlement),
    Callback.isPromiseLike (Callback.returned callback) = true ->
    let stopped :=
      fst (Callback.run callback (Some p)
             [Callback.Signal ctx startSignal; Callback.Signal ctx stopSignal]
             Callback.init) in
    Callback.canceled stopped = true
    /\ snd (Callback.run callback (Some p) [Callback.Settle 0 how] stopped)
       = [ParentSend p
            match how with
            | Fulfilled v => doneInvoke (name ctx) (Some v)
            | Rejected r => error (name ctx) r
            end (self ctx)].
Proof.
  intros callback p ctx how Hthen stopped. subst stopped.
  unfold Callback.run. cbn [run_with Callback.step fst snd].
  rewrite callback_start_eq. cbv zeta. rewrite Hthen. cbn [final].
  rewrite callback_stop_eq. cbn [final].
  split; [reflexivity|].
  rewrite callback_react_eq. reflexivity.
Qed.

Lemma callback_settlement_after_stop_reaches_parent_witness :
  snd (Callback.run deferred_callback (Some 3)
         [Callback.Signal sample_ctx startSignal;
          Callback.Signal sample_ctx stopSignal;
          Callback.Settle 0 (Fulfilled 5%Z)] Callback.init)
  = [ParentSend 3 (DoneInvoke "child" (Some 5%Z)) 7].
Proof.
  exact (proj2 (callback_settlement_after_stop_reaches_parent deferred_callback
                  3 sample_ctx (Fulfilled 5%Z) eq_refl)).
Defined.

(** C6.  Callback behavior, in any state it can reach: [receive(event)]
    changes nothing in the behavior, calls every registered receiver exactly
    once with the unwrapped payload of the event and calls nobody else; with
    no receiver registered it makes no call at all, and whatever follows
    (a later registration included) goes as if the event had never arrived. *)
Theorem callback_receive_fans_out :
  forall (callback : Callback.InvokeCallback) (parent : option ActorRef)
         (ops : list Callback.Op) (ctx : ActorContext) (event : AnyEvent)
         (later : list Callback.Op),
    let s := fst (Callback.run callback parent ops Callback.init) in
    let plainEvent := match event with SCXML data _ => data | Plain e => e end in
    let out := emitted (Callback.receive ctx event s) in
    final (Callback.receive ctx event s) = s
    /\ (if isSCXMLEvent event then exists o, event = SCXML plainEvent o
        else event = Plain plainEvent)
    /\ (forall r, In r (Callback.receivers s) ->
          filter (delivered_to r) out = [ReceiverCall r plainEvent])
    /\ (forall r, ~ In r (Callback.receivers s) -> filter (delivered_to r) out = [])
    /\ (Callback.receivers s = [] ->
          out = []
          /\ Callback.run callback parent (Callback.Receive ctx event :: later) s
             = Callback.run callback parent later s).
Proof.
  intros callback parent ops ctx event later s plainEvent out.
  subst out. rewrite callback_receive_eq. cbn [final emitted]. fold plainEvent.
  split; [reflexivity|]. split; [destruct event; simpl; eauto|].
  split; [|split].
  - intros r Hin. apply delivered_once; auto. apply callback_receivers_nodup.
  - intros r Hin. now apply delivered_absent.
  - intros Hnil. split; [now rewrite Hnil|].
    unfold Callback.run. cbn [run_with Callback.step].
    rewrite callback_receive_eq, Hnil. cbn [final emitted map app].
    now destruct (run_with (Callback.step callback parent) later s).
Qed.

Lemma callback_receive_fans_out_witness :
  (let s := fst (Callback.run listening_callback None
                   [Callback.Signal sample_ctx startSignal] Callback.init) in
   let out := emitted (Callback.receive sample_ctx
                         (SCXML (Custom "ping" 4%Z) None) s) in
   filter (delivered_to 2) out = [ReceiverCall 2 (Custom "ping" 4%Z)]
   /\ filter (delivered_to 3) out = [])
  /\ Callback.run listening_callback None
       [Callback.Receive sample_ctx (Plain (Custom "ping" 4%Z)); Callback.Listen 3;
        Callback.Receive sample_ctx (Plain (Custom "pong" 5%Z))] Callback.init
     = Callback.run listening_callback None
         [Callback.Listen 3; Callback.Receive sample_ctx (Plain (Custom "pong" 5%Z))]
         Callback.init.
Proof.
  split; [split|].
  - destruct (callback_receive_fans_out listening_callback None
                [Callback.Signal sample_ctx startSignal] sample_ctx
                (SCXML (Custom "ping" 4%Z) None) []) as (_ & _ & H & _).
    apply H. simpl. auto.
  - destruct (callback_receive_fans_out listening_callback None
                [Callback.Signal sample_ctx startSignal] sample_ctx
                (SCXML (Custom "ping" 4%Z) None) []) as (_ & _ & _ & H & _).
    apply H. simpl. intros [H1|[H1|[]]]; discriminate.
  - destruct (callback_receive_fans_out listening_callback None [] sample_ctx
                (Plain (Custom "ping" 4%Z))
                [Callback.Listen 3;
                 Callback.Receive sample_ctx (Plain (Custom "pong" 5%Z))])
      as (_ & _ & _ & _ & H).
    apply H. reflexivity.
Defined.

Lemma promise_exactly_once_settlement_witness :
  snd (Promise.run (Some 3)
         [Promise.Subscribe (sample_observer 1);
          Promise.Signal sample_ctx startSignal;
          Promise.Subscribe (sample_observer 2);
          Promise.Unsubscribe (sample_observer 1);
          Promise.Settle 0 (Fulfilled 5%Z);
          Promise.Subscribe (sample_observer 3);
          Promise.Settle 0 (Fulfilled 5%Z);
          Promise.Signal sample_ctx stopSignal] Promise.init)
  = [ParentSend 3 (DoneInvoke "child" (Some 5%Z)) 7;
     ObserverNext (sample_observer 2) (Val 5%Z);
     ObserverComplete (sample_observer 2)].
Proof.
  exact (proj1 (promise_exactly_once_settlement (Some 3) sample_ctx 5%Z
                  [Promise.Subscribe (sample_observer 1)]
                  [Promise.Subscribe (sample_observer 2);
                   Promise.Unsubscribe (sample_observer 1)]
                  [Promise.Subscribe (sample_observer 3);
                   Promise.Settle 0 (Fulfilled 5%Z);
                   Promise.Signal sample_ctx stopSignal]
                  eq_refl eq_refl eq_refl)).
Defined.

(** Outside the protocol: [receiveSignal(start)] processed twice attaches two
    reactions to the wrapped value, and each sends its own "done" event. *)
Example promise_started_twice :
  snd (Promise.run (Some 3)
         [Promise.Signal sample_ctx startSignal;
          Promise.Signal sample_ctx startSignal;
          Promise.Settle 0 (Fulfilled 5%Z);
          Promise.Settle 0 (Fulfilled 5%Z)] Promise.init)
  = [ParentSend 3 (DoneInvoke "child" (Some 5%Z)) 7;
     ParentSend 3 (DoneInvoke "child" (Some 5%Z)) 7].
Proof. reflexivity. Qed.

(** ** The cancellation flag *)

Lemma promise_step_flag parent op s :
  Promise.canceled (final (Promise.step parent op s))
  = if promise_not_stop op then Promise.canceled s else true.
Proof.
  destruct op as [ctx [|] | ctx ev | o | o | k how]; simpl; auto.
  rewrite promise_react_eq.
  destruct (nth_error (Promise.continuations s) k); reflexivity.
Qed.

Lemma callback_step_flag callback parent op s :
  Callback.canceled (final (Callback.step callback parent op s))
  = if callback_not_stop op
    then if callback_settles op s then true else Callback.canceled s
    else true.
Proof.
  destruct op as [ctx [|] | ctx ev | ctx e | l | k how];
    cbn [Callback.step callback_not_stop callback_settles].
  - rewrite callback_start_eq. cbv zeta.
    destruct (Callback.isPromiseLike _); reflexivity.
  - now rewrite callback_stop_eq.
  - now rewrite callback_receive_eq.
  - now rewrite callback_sender_eq.
  - reflexivity.
  - rewrite callback_react_eq.
    destruct (nth_error (Callback.continuations s) k) eqn:E.
    + assert (H : k < List.length (Callback.continuations s))
        by (apply nth_error_Some; congruence).
      apply Nat.ltb_lt in H. now rewrite H.
    + apply nth_error_None in E. apply Nat.ltb_ge in E. now rewrite E.
Qed.

(** C3 as stated fails for the Promise behavior: started, its wrapped value
    resolved and the "done" event sent, the flag is still not set. *)
Lemma promise_flag_unset_after_settlement :
  snd (Promise.run (Some 3)
         [Promise.Signal sample_ctx startSignal;
          Promise.Settle 0 (Fulfilled 5%Z)] Promise.init)
  = [ParentSend 3 (DoneInvoke "child" (Some 5%Z)) 7]
  /\ Promise.canceled
       (fst (Promise.run (Some 3)
               [Promise.Signal sample_ctx startSignal;
                Promise.Settle 0 (Fulfilled 5%Z)] Promise.init)) = false.
Proof. split; reflexivity. Qed.

(** C3, amended.  The flag of a Callback or Promise behavior is false at
    construction and, once true, stays true through every later operation.
    In a Callback behavior an operation ends with the flag set when it is
    [receiveSignal(stop)] or the settlement (success or error) of a returned
    deferred value whose reaction is pending, and leaves the flag as it was
    otherwise.  In a Promise behavior an operation ends with the flag set
    when it is [receiveSignal(stop)] and leaves the flag as it was otherwise,
    the settlement of the wrapped value included. *)
Theorem cancellation_flag_set_and_kept :
  (Callback.canceled Callback.init = false /\ Promise.canceled Promise.init = false)
  /\ (forall callback parent ops s,
        Callback.canceled s = true ->
        Callback.canceled (fst (Callback.run callback parent ops s)) = true)
  /\ (forall parent ops s,
        Promise.canceled s = true ->
        Promise.canceled (fst (Promise.run parent ops s)) = true)
  /\ (forall callback parent op s,
        Callback.canceled (final (Callback.step callback parent op s))
        = if callback_not_stop op
          then if callback_settles op s then true else Callback.canceled s
          else true)
  /\ (forall parent op s,
        Promise.canceled (final (Promise.step parent op s))
        = if promise_not_stop op then Promise.canceled s else true).
Proof.
  split; [split; reflexivity|]. split; [|split; [|split]].
  - intros callback parent ops s H.
    now apply (keeps_run _ _ _ (callback_step_canceled callback parent) ops s).
  - intros parent ops s H.
    now apply (keeps_run _ _ _ (promise_step_canceled parent) ops s).
  - apply callback_step_flag.
  - apply promise_step_flag.
Qed.

Lemma cancellation_flag_set_and_kept_witness :
  Callback.canceled
    (fst (Callback.run deferred_callback (Some 3)
            [Callback.Signal sample_ctx startSignal;
             Callback.Settle 0 (Rejected 1%Z);
             Callback.Emit sample_ctx (Custom "late" 2%Z)]
            (Callback.set_canceled true Callback.init))) = true
  /\ Promise.canceled
       (fst (Promise.run (Some 3)
               [Promise.Signal sample_ctx startSignal;
                Promise.Settle 0 (Fulfilled 5%Z)]
               (Promise.set_canceled true Promise.init))) = true.
Proof.
  destruct cancellation_flag_set_and_kept as (_ & Hc & Hp & _).
  split; [apply Hc | apply Hp]; reflexivity.
Defined.


(** ** Machine behavior *)

Section MachineFacts.
Variable machine : MachineNode.
Variable parent : option ActorRef.
Variable options : option Machine.InterpreterOptions.

Local Abbreviation sync := (Machine.options_sync options).

Lemma machine_on_service_eq c s :
  Machine.on_service c s =
  match Machine.service s with
  | None => Throws (TypeError "Cannot read properties of undefined") s []
  | Some i =>
      Returns tt (Machine.set_service (Some (Interpreter.call c i)) s) [OnService c]
  end.
Proof.
  unfold Machine.on_service. rewrite bind_gets.
  destruct (Machine.service s); reflexivity.
Qed.

Lemma machine_start_eq ctx s :
  Machine.receiveSignal machine parent options ctx startSignal s =
  Returns tt
    {| Machine.service :=
         Some {| Interpreter.id := name ctx;
                 Interpreter.parent := parent;
                 Interpreter.sync := sync;
                 Interpreter.status := Interpreter.Running;
                 Interpreter.current := initialState machine;
                 Interpreter.doneListeners := [ctx];
                 Interpreter.listeners := if sync then [Relay ctx] else [] |};
       Machine.subscription :=
         if sync then Some (Relay ctx) else Machine.subscription s |}
    ([Interpret (name ctx) parent sync; OnService (COnDone ctx)]
     ++ (if sync then [OnService (CSubscribe (Relay ctx))] else [])
     ++ [OnService CStart]).
Proof.
  unfold Machine.receiveSignal.
  destruct (Machine.options_sync options); destruct s; reflexivity.
Qed.

Lemma machine_stop_eq ctx s :
  Machine.receiveSignal machine parent options ctx stopSignal s =
  match Machine.service s with
  | None => Throws (TypeError "Cannot read properties of undefined") s []
  | Some i =>
      let stopped := Interpreter.call CStop i in
      match Machine.subscription s with
      | Some l =>
          Returns tt
            (Machine.set_service (Some (Interpreter.call (CUnsubscribe l) stopped)) s)
            [OnService CStop; OnService (CUnsubscribe l)]
      | None => Returns tt (Machine.set_service (Some stopped) s) [OnService CStop]
      end
  end.
Proof.
  unfold Machine.receiveSignal. destruct s as [[i|] [l|]]; reflexivity.
Qed.

Lemma machine_subscribe_eq observer s :
  Machine.subscribe observer s =
  match Machine.service s with
  | None => Returns None s []
  | Some i =>
      Returns (Some (Outside observer))
        (Machine.set_service
           (Some (Interpreter.call (CSubscribe (Outside observer)) i)) s)
        [OnService (CSubscribe (Outside observer))]
  end.
Proof. unfold Machine.subscribe. destruct s as [[i|] sub]; reflexivity. Qed.

Lemma machine_notify_all state ls s :
  forEach ls (Machine.notify parent state) s
  = Returns tt s (flat_map (heard parent state) ls).
Proof.
  induction ls as [|l ls IH]; [reflexivity|]. cbn [forEach flat_map].
  apply bind_Returns with (a := tt) (s1 := s); [|exact IH].
  destruct l as [ctx|o]; simpl.
  - apply parent_send_eq.
  - destruct (on_next o); reflexivity.
Qed.

Lemma machine_transition_eq state s :
  Machine.transition parent state s =
  match Machine.service s with
  | Some i =>
      match Interpreter.status i with
      | Interpreter.Running =>
          Returns tt (Machine.set_service (Some (Interpreter.set_current state i)) s)
            (flat_map (heard parent state) (Interpreter.listeners i))
      | _ => Returns tt s []
      end
  | None => Returns tt s []
  end.
Proof.
  unfold Machine.transition. rewrite bind_gets.
  destruct (Machine.service s) as [i|]; [|reflexivity].
  destruct (Interpreter.status i); try reflexivity.
  rewrite bind_modify. apply machine_notify_all.
Qed.

Lemma machine_done_eq output s :
  Machine.done parent output s =
  match Machine.service s with
  | Some i =>
      match Interpreter.status i with
      | Interpreter.Running =>
          Returns tt s
            (flat_map
               (fun ctx => sends parent (doneInvoke (Interpreter.id i) output) (self ctx))
               (Interpreter.doneListeners i))
      | _ => Returns tt s []
      end
  | None => Returns tt s []
  end.
Proof.
  unfold Machine.done. rewrite bind_gets.
  destruct (Machine.service s) as [i|]; [|reflexivity].
  destruct (Interpreter.status i); try reflexivity. cbv zeta.
  induction (Interpreter.doneListeners i) as [|c cs IH]; [reflexivity|].
  cbn [forEach flat_map].
  apply bind_Returns with (a := tt) (s1 := s); [apply parent_send_eq | exact IH].
Qed.

Lemma machine_step_eq_subscribe observer s :
  Machine.step machine parent options (Machine.Subscribe observer) s =
  match Machine.service s with
  | None => Returns tt s []
  | Some i =>
      Returns tt
        (Machine.set_service
           (Some (Interpreter.call (CSubscribe (Outside observer)) i)) s)
        [OnService (CSubscribe (Outside observer))]
  end.
Proof. destruct s as [[i|] sub]; reflexivity. Qed.

Lemma relay_after_add l ls :
  existsb is_relay ls = true -> existsb is_relay (set_add Listener_eq_dec l ls) = true.
Proof.
  rewrite !existsb_exists. intros (x & Hx & Hr). exists x. split; auto.
  now apply set_add_intro1.
Qed.

Lemma no_relay_after_add o ls :
  existsb is_relay ls = false ->
  existsb is_relay (set_add Listener_eq_dec (Outside o) ls) = false.
Proof.
  intros H. destruct (existsb is_relay (set_add _ _ ls)) eqn:E; [|reflexivity].
  apply existsb_exists in E as (x & Hx & Hr).
  apply set_add_elim in Hx as [->|Hx]; [discriminate|].
  rewrite <- H. symmetry. apply existsb_exists. eauto.
Qed.

Lemma no_relay_after_remove l ls :
  existsb is_relay ls = false ->
  existsb is_relay (set_remove Listener_eq_dec l ls) = false.
Proof.
  intros H. destruct (existsb is_relay (set_remove _ _ ls)) eqn:E; [|reflexivity].
  apply existsb_exists in E as (x & Hx & Hr). apply set_remove_1 in Hx.
  rewrite <- H. symmetry. apply existsb_exists. eauto.
Qed.

Lemma no_update_heard state ls :
  existsb is_relay ls = false ->
  Forall (fun e => ~ is_update e) (flat_map (heard parent state) ls).
Proof.
  induction ls as [|l ls IH]; intros H; simpl; [constructor|].
  simpl in H. apply orb_false_elim in H as [Hl Hls].
  apply Forall_app. split; [|auto].
  destruct l as [ctx|o]; [discriminate|]. simpl.
  destruct (on_next o); repeat constructor; auto.
Qed.

Lemma no_update_done id output cs :
  Forall (fun e => ~ is_update e)
    (flat_map (fun ctx => sends parent (doneInvoke id output) (self ctx)) cs).
Proof.
  induction cs as [|c cs IH]; simpl; [constructor|].
  apply Forall_app. split; [|auto].
  destruct parent; repeat constructor; auto.
Qed.

(** Without the sync option no relay of states is ever registered, and no
    "update" event is sent. *)
Lemma machine_step_unsynced op :
  sync = false ->
  keeps (fun s => forall i, Machine.service s = Some i ->
                            existsb is_relay (Interpreter.listeners i) = false)
        (fun e => ~ is_update e)
        (Machine.step machine parent options op).
Proof.
  intros Hsync [sv sub] Hs.
  destruct op as [ctx [|] | ctx ev | o | state | output].
  - cbn [Machine.step]. rewrite machine_start_eq. fold sync. rewrite Hsync. cbn [final emitted].
    split; [intros i [= <-]; reflexivity | repeat constructor; auto].
  - cbn [Machine.step]. rewrite machine_stop_eq. cbn [Machine.service Machine.subscription].
    destruct sv as [i|]; [|split; [exact Hs | constructor]].
    pose proof (Hs i eq_refl) as Hi.
    destruct sub as [l|]; cbn [final emitted Machine.service Machine.set_service];
      (split; [intros j [= <-]; simpl | repeat constructor; auto]).
    + now apply no_relay_after_remove.
    + exact Hi.
  - cbn [Machine.step]. unfold Machine.receive. rewrite machine_on_service_eq.
    cbn [Machine.service].
    destruct sv as [i|]; [|split; [exact Hs | constructor]].
    cbn [final emitted Machine.service Machine.set_service].
    split; [intros j [= <-]; simpl; auto | repeat constructor; auto].
  - rewrite machine_step_eq_subscribe. cbn [Machine.service].
    destruct sv as [i|]; [|split; [exact Hs | constructor]].
    cbn [final emitted Machine.service Machine.set_service].
    split; [intros j [= <-]; simpl | repeat constructor; auto].
    apply no_relay_after_add; auto.
  - cbn [Machine.step]. rewrite machine_transition_eq. cbn [Machine.service].
    destruct sv as [i|]; [|split; [exact Hs | constructor]].
    destruct (Interpreter.status i); cbn [final emitted];
      try (split; [exact Hs | constructor]).
    split; [intros j [= <-]; simpl; auto | apply no_update_heard; auto].
  - cbn [Machine.step]. rewrite machine_done_eq. cbn [Machine.service].
    destruct sv as [i|]; [|split; [exact Hs | constructor]].
    destruct (Interpreter.status i); cbn [final emitted];
      try (split; [exact Hs | constructor]).
    split; [exact Hs | apply no_update_done].
Qed.

(** Whenever the nested interpreter of a Machine behavior is running, the
    hooks of [receiveSignal(start)] are registered with it. *)
Lemma machine_step_hooked op :
  keeps (fun s => forall i, Machine.service s = Some i ->
                            Interpreter.status i = Interpreter.Running ->
                            hooked sync i)
        (fun _ => True)
        (Machine.step machine parent options op).
Proof.
  intros [sv sub] Hs. split; [|apply Forall_forall; auto].
  destruct op as [ctx [|] | ctx ev | o | state | output].
  - cbn [Machine.step]. rewrite machine_start_eq. cbn [final Machine.service].
    intros i [= <-] _. split; simpl; [discriminate|].
    fold sync. intros ->. reflexivity.
  - cbn [Machine.step]. rewrite machine_stop_eq. cbn [Machine.service Machine.subscription].
    destruct sv as [i|]; [|exact Hs].
    destruct sub as [l|];
      cbn [final Machine.service Machine.set_service];
      intros j [= <-]; simpl; discriminate.
  - cbn [Machine.step]. unfold Machine.receive. rewrite machine_on_service_eq. cbn [Machine.service].
    destruct sv as [i|]; [|exact Hs].
    cbn [final Machine.service Machine.set_service].
    intros j [= <-]; simpl; auto.
  - rewrite machine_step_eq_subscribe. cbn [Machine.service].
    destruct sv as [i|]; [|exact Hs].
    cbn [final Machine.service Machine.set_service].
    intros j [= <-] Hrun. destruct (Hs i eq_refl Hrun) as [Hd Hl].
    split; simpl; auto. intros Hsync. apply relay_after_add; auto.
  - cbn [Machine.step]. rewrite machine_transition_eq. cbn [Machine.service].
    destruct sv as [i|]; [|exact Hs].
    destruct (Interpreter.status i) eqn:Est; cbn [final]; try exact Hs.
    cbn [Machine.service Machine.set_service].
    intros j [= <-] _. apply (Hs i eq_refl Est).
  - cbn [Machine.step]. rewrite machine_done_eq. cbn [Machine.service].
    destruct sv as [i|]; [|exact Hs].
    destruct (Interpreter.status i); cbn [final]; exact Hs.
Qed.

(** Before the first start there is no service, whatever else is tried. *)
Lemma machine_unstarted_run ops :
  forallb machine_not_start ops = true ->
  fst (Machine.run machine parent options ops Machine.init) = Machine.init.
Proof.
  induction ops as [|op ops IH]; intros H; [reflexivity|].
  simpl in H. apply andb_prop in H as [Hop Hops].
  unfold Machine.run in *. cbn [run_with fst].
  destruct op as [ctx [|] | ctx ev | o | state | output];
    try discriminate; now apply IH.
Qed.

End MachineFacts.

(** C7.  Machine behavior: [receiveSignal(start)] constructs the interpreter,
    registers the completion hook, with the sync option subscribes the relay
    of states, and only then starts the interpreter, which until that last
    call has not been started.  So in every state the behavior can reach, a
    running nested interpreter has the hooks registered; and without the sync
    option no run of the behavior sends an "update" event to the parent. *)
Theorem machine_start_registers_before_starting :
  forall (machine : MachineNode) (parent : option ActorRef)
         (options : option Machine.InterpreterOptions)
         (ctx : ActorContext) (s : Machine.State) (ops : list Machine.Op),
    let sync := Machine.options_sync options in
    let o := Machine.receiveSignal machine parent options ctx startSignal s in
    let r := Machine.run machine parent options ops Machine.init in
    emitted o
    = [Interpret (name ctx) parent sync; OnService (COnDone ctx)]
      ++ (if sync then [OnService (CSubscribe (Relay ctx))] else [])
      ++ [OnService CStart]
    /\ Interpreter.status
         (fold_left (fun i c => Interpreter.call c i)
            (COnDone ctx :: if sync then [CSubscribe (Relay ctx)] else [])
            (Interpreter.interpret machine (name ctx) parent sync))
       = Interpreter.NotStarted
    /\ (exists i, Machine.service (final o) = Some i
                  /\ Interpreter.status i = Interpreter.Running
                  /\ Interpreter.doneListeners i = [ctx]
                  /\ Interpreter.listeners i = if sync then [Relay ctx] else [])
    /\ (forall i, Machine.service (fst r) = Some i ->
                  Interpreter.status i = Interpreter.Running ->
                  hooked sync i)
    /\ (sync = false -> Forall (fun e => ~ is_update e) (snd r)).
Proof.
  intros machine parent options ctx s ops sync o r. subst o.
  rewrite machine_start_eq. fold sync. cbn [final emitted Machine.service].
  split; [reflexivity|]. split; [destruct sync; reflexivity|].
  split; [eexists; repeat split; reflexivity|]. split.
  - apply (keeps_run _ _ _ (machine_step_hooked machine parent options) ops Machine.init).
    intros i [=].
  - intros Hsync.
    apply (keeps_run _ _ _
             (fun op => machine_step_unsynced machine parent options op Hsync)
             ops Machine.init).
    intros i [=].
Qed.

Lemma machine_start_registers_before_starting_witness :
  hooked true
    {| Interpreter.id := "child"; Interpreter.parent := Some 3;
       Interpreter.sync := true; Interpreter.status := Interpreter.Running;
       Interpreter.current := 4;
       Interpreter.doneListeners := [sample_ctx];
       Interpreter.listeners := [Relay sample_ctx; Outside (sample_observer 1)] |}
  /\ Forall (fun e => ~ is_update e)
       (snd (Machine.run sample_machine (Some 3) None
               [Machine.Signal sample_ctx startSignal; Machine.Transition 4;
                Machine.Done (Some 5%Z)] Machine.init)).
Proof.
  split.
  - destruct (machine_start_registers_before_starting sample_machine (Some 3)
                (Some {| Machine.sync := true |}) sample_ctx Machine.init
                [Machine.Signal sample_ctx startSignal;
                 Machine.Subscribe (sample_observer 1); Machine.Transition 4])
      as (_ & _ & _ & H & _).
    apply H; reflexivity.
  - destruct (machine_start_registers_before_starting sample_machine (Some 3)
                None sample_ctx Machine.init
                [Machine.Signal sample_ctx startSignal; Machine.Transition 4;
                 Machine.Done (Some 5%Z)])
      as (_ & _ & _ & _ & H).
    apply H; reflexivity.
Defined.

(** C10.  Machine behavior on which no start has been processed: there is no
    service; [receive] and [receiveSignal(stop)] throw a [TypeError] on it,
    having done nothing; [subscribe] returns [undefined] and does nothing. *)
Theorem machine_before_start :
  forall (machine : MachineNode) (parent : option ActorRef)
         (options : option Machine.InterpreterOptions) (ops : list Machine.Op)
         (ctx : ActorContext) (event : AnyEvent) (observer : Observer),
    forallb machine_not_start ops = true ->
    let s := fst (Machine.run machine parent options ops Machine.init) in
    Machine.service s = None
    /\ Machine.receive ctx event s
       = Throws (TypeError "Cannot read properties of undefined") s []
    /\ Machine.receiveSignal machine parent options ctx stopSignal s
       = Throws (TypeError "Cannot read properties of undefined") s []
    /\ Machine.subscribe observer s = Returns None s [].
Proof.
  intros machine parent options ops ctx event observer H s. subst s.
  rewrite machine_unstarted_run by assumption.
  repeat split; reflexivity.
Qed.

Lemma machine_before_start_witness :
  Machine.receive sample_ctx (Plain (Custom "go" 1%Z))
    (fst (Machine.run sample_machine (Some 3) None
            [Machine.Subscribe (sample_observer 1); Machine.Transition 2;
             Machine.Signal sample_ctx stopSignal] Machine.init))
  = Throws (TypeError "Cannot read properties of undefined")
      (fst (Machine.run sample_machine (Some 3) None
              [Machine.Subscribe (sample_observer 1); Machine.Transition 2;
               Machine.Signal sample_ctx stopSignal] Machine.init)) []
  /\ Machine.subscribe (sample_observer 2)
       (fst (Machine.run sample_machine (Some 3) None
               [Machine.Receive sample_ctx (Plain (Custom "go" 1%Z))] Machine.init))
     = Returns None
         (fst (Machine.run sample_machine (Some 3) None
                 [Machine.Receive sample_ctx (Plain (Custom "go" 1%Z))] Machine.init))
         [].
Proof.
  split.
  - destruct (machine_before_start sample_machine (Some 3) None
                [Machine.Subscribe (sample_observer 1); Machine.Transition 2;
                 Machine.Signal sample_ctx stopSignal]
                sample_ctx (Plain (Custom "go" 1%Z)) (sample_observer 2) eq_refl)
      as (_ & H & _).
    exact H.
  - destruct (machine_before_start sample_machine (Some 3) None
                [Machine.Receive sample_ctx (Plain (Custom "go" 1%Z))]
                sample_ctx (Plain (Custom "go" 1%Z)) (sample_observer 2) eq_refl)
      as (_ & _ & _ & H).
    exact H.
Defined.

(** ** Service behavior *)




(** ** The dispatch factory *)

(** C5.  [createBehaviorFrom] tries the shapes in the order deferred value,
    stream, machine definition, function, and returns the variant of the
    first that fits; so a candidate with both a [then] and a [subscribe]
    method gets the Promise behavior and not the Observable behavior. *)
Theorem createBehaviorFrom_precedence :
  forall (entity : Spawnable) (parent : option ActorRef),
    (isPromiseLike entity = true ->
     createBehaviorFrom entity parent = Ok (createPromiseBehavior parent))
    /\ (isPromiseLike entity = false -> isObservable entity = true ->
        createBehaviorFrom entity parent = Ok (createObservableBehavior parent))
    /\ (isPromiseLike entity = false -> isObservable entity = false ->
        forall machine, machineNode entity = Some machine ->
        createBehaviorFrom entity parent
        = Ok (createMachineBehavior machine parent None))
    /\ (isPromiseLike entity = false -> isObservable entity = false ->
        isMachineNode entity = false ->
        forall callback, invokeCallback entity = Some callback ->
        createBehaviorFrom entity parent
        = Ok (createCallbackBehavior callback parent))
    /\ (isPromiseLike entity = true -> isObservable entity = true ->
        createBehaviorFrom entity parent = Ok (createPromiseBehavior parent)
        /\ createBehaviorFrom entity parent <> Ok (createObservableBehavior parent)).
Proof.
  intros entity parent. unfold createBehaviorFrom, isMachineNode.
  split; [|split; [|split; [|split]]].
  - intros ->. reflexivity.
  - intros -> ->. reflexivity.
  - intros -> -> machine ->. reflexivity.
  - intros -> ->. destruct (machineNode entity); [discriminate|].
    intros _ callback ->. reflexivity.
  - intros -> _. split; [reflexivity | discriminate].
Qed.

Lemma createBehaviorFrom_precedence_witness :
  createBehaviorFrom every_shape (Some 3) = Ok (createPromiseBehavior (Some 3))
  /\ createBehaviorFrom every_shape (Some 3) <> Ok (createObservableBehavior (Some 3))
  /\ createBehaviorFrom stream_and_function (Some 3)
     = Ok (createObservableBehavior (Some 3))
  /\ createBehaviorFrom machine_and_function (Some 3)
     = Ok (createMachineBehavior sample_machine (Some 3) None)
  /\ createBehaviorFrom only_function (Some 3)
     = Ok (createCallbackBehavior listening_callback (Some 3)).
Proof.
  destruct (createBehaviorFrom_precedence every_shape (Some 3))
    as (_ & _ & _ & _ & H1).
  destruct (createBehaviorFrom_precedence stream_and_function (Some 3))
    as (_ & H2 & _).
  destruct (createBehaviorFrom_precedence machine_and_function (Some 3))
    as (_ & _ & H3 & _).
  destruct (createBehaviorFrom_precedence only_function (Some 3))
    as (_ & _ & _ & H4 & _).
  split; [exact (proj1 (H1 eq_refl eq_refl))|].
  split; [exact (proj2 (H1 eq_refl eq_refl))|].
  split; [exact (H2 eq_refl eq_refl)|].
  split; [exact (H3 eq_refl eq_refl sample_machine eq_refl)|].
  exact (H4 eq_refl eq_refl eq_refl listening_callback eq_refl).
Defined.

(** C8.  [createBehaviorFrom] on a candidate that is no deferred value, no
    stream, no machine definition and no function throws, at once, the error
    "Unable to create behavior from entity", and returns no behavior. *)
Theorem createBehaviorFrom_unsupported :
  forall (entity : Spawnable) (parent : option ActorRef),
    isPromiseLike entity = false -> isObservable entity = false ->
    isMachineNode entity = false -> isFunction entity = false ->
    createBehaviorFrom entity parent
    = Thrown (Error "Unable to create behavior from entity")
    /\ (forall b, createBehaviorFrom entity parent <> Ok b).
Proof.
  intros entity parent Hp Ho Hm Hf.
  unfold createBehaviorFrom, isMachineNode, isFunction in *.
  rewrite Hp, Ho.
  destruct (machineNode entity); [discriminate|].
  destruct (invokeCallback entity); [discriminate|].
  split; [reflexivity | discriminate].
Qed.

Lemma createBehaviorFrom_unsupported_witness :
  createBehaviorFrom no_shape (Some 3)
  = Thrown (Error "Unable to create behavior from entity").
Proof.
  exact (proj1 (createBehaviorFrom_unsupported no_shape (Some 3)
                  eq_refl eq_refl eq_refl eq_refl)).
Defined.


(** * Further properties *)

(** ** Callback behavior *)

Lemma to_parent_deliveries e (rs : list nat) :
  filter to_parent (map (fun r => ReceiverCall r e) rs) = [].
Proof. induction rs; simpl; auto. Qed.

Lemma callback_step_silent callback parent op s :
  Callback.canceled s = true -> callback_not_settle op = true ->
  filter to_parent (emitted (Callback.step callback parent op s)) = [].
Proof.
  intros Hc Hop.
  destruct op as [ctx [|] | ctx ev | ctx e | l | k how];
    try discriminate; cbn [Callback.step].
  - rewrite callback_start_eq. cbv zeta. cbn [emitted]. now rewrite Hc.
  - rewrite callback_stop_eq. cbn [emitted].
    destruct (Callback.isFunction _); reflexivity.
  - rewrite callback_receive_eq. apply to_parent_deliveries.
  - rewrite callback_sender_eq. cbn [emitted]. now rewrite Hc.
  - reflexivity.
Qed.

(** X1.  Callback behavior whose flag is set (by a stop or by a settlement):
    as long as no deferred value settles, nothing reaches the parent any
    more, whatever the wrapped function sends back, also when it is run again
    by a later start. *)
Theorem callback_flag_silences_sender :
  forall (callback : Callback.InvokeCallback) (parent : option ActorRef)
         (ops : list Callback.Op) (s : Callback.State),
    Callback.canceled s = true ->
    forallb callback_not_settle ops = true ->
    filter to_parent (snd (Callback.run callback parent ops s)) = [].
Proof.
  intros callback parent ops. unfold Callback.run.
  induction ops as [|op ops IH]; intros s Hc Hops; [reflexivity|].
  simpl in Hops. apply andb_prop in Hops as [Hop Hops].
  cbn [run_with snd]. rewrite filter_app, callback_step_silent by assumption.
  apply IH; [|assumption].
  now apply (callback_step_canceled callback parent op s).
Qed.

Lemma callback_flag_silences_sender_witness :
  filter to_parent
    (snd (Callback.run chatty_callback (Some 3)
            [Callback.Emit sample_ctx (Custom "late" 2%Z);
             Callback.Signal sample_ctx startSignal;
             Callback.Receive sample_ctx (Plain (Custom "ping" 4%Z))]
            (fst (Callback.run chatty_callback (Some 3)
                    [Callback.Signal sample_ctx startSignal;
                     Callback.Signal sample_ctx stopSignal] Callback.init))))
  = [].
Proof.
  apply callback_flag_silences_sender; reflexivity.
Defined.

Lemma registered_In r body rs :
  In r (registered body rs) <-> In r rs \/ In (Callback.OnReceive r) body.
Proof.
  revert rs; induction body as [|[e|l] body IH]; intros rs; simpl.
  - tauto.
  - rewrite IH. split; intros [H|H]; auto. destruct H as [H|H]; [discriminate|auto].
  - rewrite IH, set_add_iff. split.
    + intros [[->|H]|H]; auto.
    + intros [H|[H|H]]; auto. injection H as ->. auto.
Qed.

Lemma callback_first_start callback parent ctx :
  Callback.receivers
    (fst (Callback.run callback parent [Callback.Signal ctx startSignal] Callback.init))
  = registered (Callback.body callback) []
  /\ snd (Callback.run callback parent [Callback.Signal ctx startSignal] Callback.init)
     = sent_back parent ctx (Callback.body callback).
Proof.
  unfold Callback.run. cbn [run_with fst snd Callback.step].
  rewrite callback_start_eq. cbv zeta. split.
  - destruct (Callback.isPromiseLike _); reflexivity.
  - cbn [emitted]. simpl. apply app_nil_r.
Qed.

(** X2.  Callback behavior, first start: the parent gets the events the
    wrapped function sends back while it runs, in that order and tagged with
    this actor as origin; afterwards [receive] calls a receiver exactly once
    if the wrapped function registered it (however many times) and not at all
    if it did not. *)
Theorem callback_start_runs_wrapped_function :
  forall (callback : Callback.InvokeCallback) (parent : option ActorRef)
         (ctx ctx' : ActorContext) (event : AnyEvent) (r : nat),
    let started :=
      Callback.run callback parent [Callback.Signal ctx startSignal] Callback.init in
    let plainEvent := match event with SCXML data _ => data | Plain e => e end in
    let out := emitted (Callback.receive ctx' event (fst started)) in
    snd started = sent_back parent ctx (Callback.body callback)
    /\ (In (Callback.OnReceive r) (Callback.body callback) ->
        filter (delivered_to r) out = [ReceiverCall r plainEvent])
    /\ (~ In (Callback.OnReceive r) (Callback.body callback) ->
        filter (delivered_to r) out = []).
Proof.
  intros callback parent ctx ctx' event r started plainEvent out.
  destruct (callback_first_start callback parent ctx) as [Hrs Hout].
  subst out started. split; [exact Hout|].
  rewrite callback_receive_eq. fold plainEvent. cbn [emitted].
  rewrite Hrs. split; intros H.
  - apply delivered_once; [apply registered_nodup; constructor|].
    apply registered_In. now right.
  - apply delivered_absent. rewrite registered_In. intros [[]|H']. contradiction.
Qed.

Lemma callback_start_runs_wrapped_function_witness :
  filter (delivered_to 1)
    (emitted (Callback.receive sample_ctx (Plain (Custom "ping" 4%Z))
                (fst (Callback.run listening_callback None
                        [Callback.Signal sample_ctx startSignal] Callback.init))))
  = [ReceiverCall 1 (Custom "ping" 4%Z)]
  /\ filter (delivered_to 4)
       (emitted (Callback.receive sample_ctx (Plain (Custom "ping" 4%Z))
                   (fst (Callback.run listening_callback None
                           [Callback.Signal sample_ctx startSignal] Callback.init))))
     = [].
Proof.
  destruct (callback_start_runs_wrapped_function listening_callback None
              sample_ctx sample_ctx (Plain (Custom "ping" 4%Z)) 1) as (_ & H1 & _).
  destruct (callback_start_runs_wrapped_function listening_callback None
              sample_ctx sample_ctx (Plain (Custom "ping" 4%Z)) 4) as (_ & _ & H4).
  split.
  - apply H1. simpl. auto.
  - apply H4. simpl. intros [H|[H|[H|[]]]]; discriminate.
Defined.

Lemma callback_step_dispose callback parent op s :
  Callback.dispose (final (Callback.step callback parent op s))
  = match op with
    | Callback.Signal _ startSignal => Callback.returned callback
    | _ => Callback.dispose s
    end.
Proof.
  destruct op as [ctx [|] | ctx ev | ctx e | l | k how]; cbn [Callback.step].
  - rewrite callback_start_eq. cbv zeta.
    destruct (Callback.isPromiseLike _); reflexivity.
  - now rewrite callback_stop_eq.
  - now rewrite callback_receive_eq.
  - now rewrite callback_sender_eq.
  - reflexivity.
  - rewrite callback_react_eq.
    destruct (nth_error (Callback.continuations s) k); reflexivity.
Qed.

Lemma callback_step_disposals callback parent op s :
  filter is_dispose (emitted (Callback.step callback parent op s))
  = match op with
    | Callback.Signal _ stopSignal =>
        if Callback.isFunction (Callback.dispose s) then [DisposeCall] else []
    | _ => []
    end.
Proof.
  destruct op as [ctx [|] | ctx ev | ctx e | l | k how]; cbn [Callback.step].
  - rewrite callback_start_eq. cbv zeta. cbn [emitted].
    destruct (Callback.canceled s); [reflexivity|].
    induction (Callback.body callback) as [|[e|l] body IH]; simpl; auto.
    destruct parent; simpl; auto.
  - rewrite callback_stop_eq. cbn [emitted].
    destruct (Callback.isFunction _); reflexivity.
  - rewrite callback_receive_eq. cbn [emitted].
    induction (Callback.receivers s); simpl; auto.
  - rewrite callback_sender_eq. cbn [emitted].
    destruct (Callback.canceled s); [reflexivity|]. destruct parent; reflexivity.
  - reflexivity.
  - rewrite callback_react_eq.
    destruct (nth_error (Callback.continuations s) k); [|reflexivity].
    destruct parent; reflexivity.
Qed.

Lemma callback_disposals_from callback parent ops (started : bool) s :
  Callback.dispose s
  = (if started then Callback.returned callback else Callback.undefined) ->
  List.length (filter is_dispose (snd (Callback.run callback parent ops s)))
  = if Callback.isFunction (Callback.returned callback)
    then stops_after_start started ops else 0.
Proof.
  unfold Callback.run.
  revert started s; induction ops as [|op ops IH]; intros started s Hd.
  - simpl. now destruct (Callback.isFunction _).
  - cbn [run_with snd]. rewrite filter_app, length_app, callback_step_disposals.
    pose proof (callback_step_dispose callback parent op s) as Hnext.
    destruct op as [ctx [|] | ctx ev | ctx e | l | k how];
      cbn [stops_after_start];
      try (rewrite (IH started) by (rewrite Hnext; exact Hd); reflexivity).
    + rewrite (IH true) by (rewrite Hnext; reflexivity). reflexivity.
    + rewrite (IH started) by (rewrite Hnext; exact Hd). rewrite Hd.
      unfold Callback.isFunction.
      destruct started; simpl;
        destruct (Callback.callable (Callback.returned callback)); reflexivity.
Qed.

(** X3.  Callback behavior: over any run, the disposer is called once for
    every stop that follows a start if the wrapped function returned a
    function, and never otherwise: not by a stop before the first start, not
    at a settlement, not when the returned value is no function. *)
Theorem callback_disposer_calls :
  forall (callback : Callback.InvokeCallback) (parent : option ActorRef)
         (ops : list Callback.Op),
    List.length
      (filter is_dispose (snd (Callback.run callback parent ops Callback.init)))
    = if Callback.isFunction (Callback.returned callback)
      then stops_after_start false ops else 0.
Proof.
  intros. now apply callback_disposals_from.
Qed.

(** ** Promise behavior *)

(** The calls of a run with one start and one settlement. *)
Lemma promise_single_start_trace parent ctx how before between later :
  forallb promise_client before = true ->
  forallb promise_client between = true ->
  forallb promise_not_start later = true ->
  snd (Promise.run parent
         (before ++ Promise.Signal ctx startSignal :: between
            ++ Promise.Settle 0 how :: later) Promise.init)
  = match how with
    | Fulfilled v =>
        sends parent (doneInvoke (name ctx) (Some v)) (self ctx)
        ++ flat_map (notifications v)
             (Promise.observers
                (fst (Promise.run parent
                        (before ++ Promise.Signal ctx startSignal :: between)
                        Promise.init)))
    | Rejected r =>
        sends parent (error (name ctx) r) (self ctx)
        ++ flat_map (failure_notifications r)
             (Promise.observers
                (fst (Promise.run parent
                        (before ++ Promise.Signal ctx startSignal :: between)
                        Promise.init)))
    end.
Proof.
  intros Hb Hm Ha. unfold Promise.run.
  rewrite !run_with_app. cbn [run_with fst snd].
  rewrite !run_with_app. cbn [run_with fst snd].
  destruct (promise_client_run parent before Promise.init Hb) as (E0 & C0 & K0).
  unfold Promise.run in *. rewrite E0.
  set (s0 := fst (run_with (Promise.step parent) before Promise.init)) in *.
  set (s1 := final (Promise.step parent (Promise.Signal ctx startSignal) s0)).
  destruct (promise_client_run parent between s1 Hm) as (E1 & C1 & K1).
  unfold Promise.run in *. rewrite E1.
  set (s2 := fst (run_with (Promise.step parent) between s1)) in *.
  assert (C2 : Promise.canceled s2 = false) by (rewrite C1; simpl; now rewrite C0).
  assert (K2 : Promise.continuations s2 = [ctx])
    by (rewrite K1; simpl; now rewrite K0).
  cbn [Promise.step]. rewrite promise_react_eq, K2, C2. cbn [nth_error drop_nth].
  cbn [final emitted].
  pose proof (promise_spent_run parent later (Promise.set_continuations [] s2)
                Ha eq_refl) as E3.
  unfold Promise.run in E3. rewrite E3.
  simpl. rewrite !app_nil_r. destruct how; reflexivity.
Qed.

Lemma about_failure_same r o :
  filter (about o) (failure_notifications r o) = failure_notifications r o.
Proof.
  unfold failure_notifications.
  destruct (on_error o), (on_complete o); simpl;
    destruct (Observer_eq_dec o o); try reflexivity; contradiction.
Qed.

Lemma about_failure_other r o o' :
  o <> o' -> filter (about o) (failure_notifications r o') = [].
Proof.
  intros H. unfold failure_notifications.
  destruct (on_error o'), (on_complete o'); simpl;
    destruct (Observer_eq_dec o o'); try reflexivity; contradiction.
Qed.

Lemma about_failed_absent r o l :
  ~ In o l -> filter (about o) (flat_map (failure_notifications r) l) = [].
Proof.
  induction l as [|x l IH]; intros H; simpl; [reflexivity|].
  rewrite filter_app, about_failure_other, IH; auto.
  - intros Hin; apply H; now right.
  - intros ->; apply H; now left.
Qed.

Lemma about_failed_once r o l :
  NoDup l -> In o l ->
  filter (about o) (flat_map (failure_notifications r) l) = failure_notifications r o.
Proof.
  induction 1 as [|x l Hx Hl IH]; intros Hin; [contradiction|].
  simpl. rewrite filter_app. destruct Hin as [->|Hin].
  - rewrite about_failure_same, about_failed_absent by assumption.
    apply app_nil_r.
  - rewrite about_failure_other, IH; auto.
    intros ->; contradiction.
Qed.

Lemma to_parent_failures r l :
  filter to_parent (flat_map (failure_notifications r) l) = [].
Proof.
  induction l as [|x l IH]; simpl; [reflexivity|].
  rewrite filter_app, IH. unfold failure_notifications.
  destruct (on_error x), (on_complete x); reflexivity.
Qed.

Lemma no_next_in_failures r l o v :
  ~ In (ObserverNext o v) (flat_map (failure_notifications r) l).
Proof.
  rewrite in_flat_map. intros (x & _ & H). unfold failure_notifications in H.
  destruct (on_error x), (on_complete x); simpl in H;
    repeat (destruct H as [H|H]; try discriminate); auto.
Qed.

(** X4.  Promise behavior started once and not stopped before the wrapped
    value is rejected with [r]: the calls of its whole life are the "error"
    event to the parent (if there is one) followed by one pass over the
    observers registered at that time.  The parent gets that one message;
    each of those observers gets its [error] (if it has the callback) and
    then its [complete] (if it has the callback), once; nobody gets [next]. *)
Theorem promise_exactly_once_rejection :
  forall (parent : option ActorRef) (ctx : ActorContext) (r : Value)
         (before between later : list Promise.Op),
    forallb promise_client before = true ->
    forallb promise_client between = true ->
    forallb promise_not_start later = true ->
    let settling :=
      fst (Promise.run parent
             (before ++ Promise.Signal ctx startSignal :: between) Promise.init) in
    let trace :=
      snd (Promise.run parent
             (before ++ Promise.Signal ctx startSignal :: between
                ++ Promise.Settle 0 (Rejected r) :: later) Promise.init) in
    (forall p, parent = Some p ->
       filter to_parent trace = [ParentSend p (error (name ctx) r) (self ctx)])
    /\ (forall o, In o (Promise.observers settling) ->
          filter (about o) trace
          = (if on_error o then [ObserverError o r] else [])
            ++ (if on_complete o then [ObserverComplete o] else []))
    /\ (forall o v, ~ In (ObserverNext o v) trace).
Proof.
  intros parent ctx r before between later Hb Hm Ha settling trace.
  subst trace.
  rewrite (promise_single_start_trace parent ctx (Rejected r) before between later)
    by assumption.
  fold settling. repeat split.
  - intros p ->. simpl. now rewrite to_parent_failures.
  - intros o Hin. rewrite filter_app.
    rewrite about_failed_once; auto; [|apply promise_observers_nodup].
    destruct parent; reflexivity.
  - intros o v H. apply in_app_or in H as [H|H].
    + destruct parent; simpl in H; [destruct H as [H|[]]; discriminate|contradiction].
    + exact (no_next_in_failures _ _ _ _ H).
Qed.

Lemma promise_exactly_once_rejection_witness :
  filter to_parent
    (snd (Promise.run (Some 3)
            [Promise.Subscribe (sample_observer 1);
             Promise.Signal sample_ctx startSignal;
             Promise.Subscribe (sample_observer 2);
             Promise.Settle 0 (Rejected 9%Z);
             Promise.Settle 0 (Fulfilled 5%Z)] Promise.init))
  = [ParentSend 3 (ErrorPlatform "child" 9%Z) 7].
Proof.
  destruct (promise_exactly_once_rejection (Some 3) sample_ctx 9%Z
              [Promise.Subscribe (sample_observer 1)]
              [Promise.Subscribe (sample_observer 2)]
              [Promise.Settle 0 (Fulfilled 5%Z)] eq_refl eq_refl eq_refl)
    as (H & _).
  exact (H 3 eq_refl).
Defined.





Lemma promise_step_stays_out parent observer op s :
  promise_keeps_out observer op = true ->
  ~ In observer (Promise.observers s) ->
  ~ In observer (Promise.observers (final (Promise.step parent op s))).
Proof.
  intros Hop Hout.
  destruct op as [ctx [|] | ctx ev | o | o | k how]; simpl; auto.
  - simpl in Hop. destruct (Observer_eq_dec observer o) as [|Hne]; [discriminate|].
    intros H. apply set_add_elim in H as [H|H]; auto.
  - intros H. apply set_remove_1 in H. auto.
  - rewrite promise_react_eq.
    destruct (nth_error (Promise.continuations s) k); exact Hout.
Qed.

Lemma promise_unsubscribed_is_out parent observer head tail :
  forallb (promise_keeps_out observer) tail = true ->
  ~ In observer
      (Promise.observers
         (fst (Promise.run parent
                 (head ++ Promise.Unsubscribe observer :: tail) Promise.init))).
Proof.
  intros Htail. unfold Promise.run. rewrite run_with_app. cbn [run_with fst].
  pose proof (promise_observers_nodup parent head) as Hn. unfold Promise.run in Hn.
  set (s0 := fst (run_with (Promise.step parent) head Promise.init)) in *.
  assert (H1 : ~ In observer
                 (Promise.observers
                    (final (Promise.step parent (Promise.Unsubscribe observer) s0)))).
  { simpl. intros Hin. exact (set_remove_2 Observer_eq_dec Hn Hin eq_refl). }
  revert H1.
  generalize (final (Promise.step parent (Promise.Unsubscribe observer) s0)).
  induction tail as [|op tail IH]; intros s H; [exact H|].
  simpl in Htail. apply andb_prop in Htail as [Hop Htail].
  cbn [run_with fst]. apply IH; [exact Htail|].
  now apply promise_step_stays_out.
Qed.

(** X6.  Promise behavior started once and not stopped before the wrapped
    value settles: an observer that was unsubscribed at some point before the
    settlement (before or after the start) and not subscribed again between
    that point and the settlement is not called at the settlement, or ever,
    whether the value resolves or is rejected. *)
Theorem promise_unsubscribed_not_notified :
  forall (parent : option ActorRef) (ctx : ActorContext) (how : Settlement)
         (observer : Observer) (before between head tail later : list Promise.Op),
    forallb promise_client before = true ->
    forallb promise_client between = true ->
    forallb promise_not_start later = true ->
    before ++ Promise.Signal ctx startSignal :: between
    = head ++ Promise.Unsubscribe observer :: tail ->
    forallb (promise_keeps_out observer) tail = true ->
    filter (about observer)
      (snd (Promise.run parent
              (before ++ Promise.Signal ctx startSignal :: between
                 ++ Promise.Settle 0 how :: later) Promise.init))
    = [].
Proof.
  intros parent ctx how observer before between head tail later
         Hb Hm Ha Hsplit Htail.
  rewrite promise_single_start_trace by assumption.
  rewrite Hsplit.
  pose proof (promise_unsubscribed_is_out parent observer head tail Htail) as Hout.
  destruct how; rewrite filter_app;
    [rewrite about_notified_absent | rewrite about_failed_absent]; auto;
    destruct parent; reflexivity.
Qed.

Lemma promise_unsubscribed_not_notified_witness :
  filter (about (sample_observer 1))
    (snd (Promise.run (Some 3)
            [Promise.Subscribe (sample_observer 1);
             Promise.Signal sample_ctx startSignal;
             Promise.Unsubscribe (sample_observer 1);
             Promise.Subscribe (sample_observer 2);
             Promise.Settle 0 (Fulfilled 5%Z)] Promise.init))
  = []
  /\ filter (about (sample_observer 1))
       (snd (Promise.run (Some 3)
               [Promise.Subscribe (sample_observer 1);
                Promise.Unsubscribe (sample_observer 1);
                Promise.Signal sample_ctx startSignal;
                Promise.Subscribe (sample_observer 2);
                Promise.Settle 0 (Rejected 9%Z)] Promise.init))
     = [].
Proof.
  split.
  - exact (promise_unsubscribed_not_notified (Some 3) sample_ctx (Fulfilled 5%Z)
             (sample_observer 1)
             [Promise.Subscribe (sample_observer 1)]
             [Promise.Unsubscribe (sample_observer 1);
              Promise.Subscribe (sample_observer 2)]
             [Promise.Subscribe (sample_observer 1);
              Promise.Signal sample_ctx startSignal]
             [Promise.Subscribe (sample_observer 2)] []
             eq_refl eq_refl eq_refl eq_refl eq_refl).
  - exact (promise_unsubscribed_not_notified (Some 3) sample_ctx (Rejected 9%Z)
             (sample_observer 1)
             [Promise.Subscribe (sample_observer 1);
              Promise.Unsubscribe (sample_observer 1)]
             [Promise.Subscribe (sample_observer 2)]
             [Promise.Subscribe (sample_observer 1)]
             [Promise.Signal sample_ctx startSignal;
              Promise.Subscribe (sample_observer 2)] []
             eq_refl eq_refl eq_refl eq_refl eq_refl).
Defined.

Lemma drop_nth_In {A} (x : A) k l : In x (drop_nth k l) -> In x l.
Proof.
  revert k; induction l as [|y l IH]; intros k H; [destruct k; exact H|].
  destruct k; simpl in *; [auto|]. destruct H as [H|H]; eauto.
Qed.

Lemma promise_step_continuations parent op s c :
  In c (Promise.continuations (final (Promise.step parent op s))) ->
  In c (Promise.continuations s) \/ op = Promise.Signal c startSignal.
Proof.
  destruct op as [ctx [|] | ctx ev | o | o | k how]; simpl; auto.
  - intros H. apply in_app_or in H as [H|[->|[]]]; auto.
  - rewrite promise_react_eq.
    destruct (nth_error (Promise.continuations s) k); simpl; auto.
    intros H. left. eapply drop_nth_In; eauto.
Qed.

Lemma not_to_parent_in l p e o :
  filter to_parent l = [] -> ~ In (ParentSend p e o) l.
Proof.
  intros H Hin.
  assert (Hf : In (ParentSend p e o) (filter to_parent l))
    by (apply filter_In; auto).
  now rewrite H in Hf.
Qed.

Lemma promise_step_sends parent op s p e o :
  In (ParentSend p e o) (emitted (Promise.step parent op s)) ->
  parent = Some p
  /\ exists ctx, In ctx (Promise.continuations s) /\ o = self ctx
                 /\ exists x, e = doneInvoke (name ctx) (Some x)
                              \/ e = error (name ctx) x.
Proof.
  destruct op as [ctx [|] | ctx ev | ob | ob | k how]; simpl; try contradiction.
  rewrite promise_react_eq.
  destruct (nth_error (Promise.continuations s) k) as [c|] eqn:E;
    simpl; [|contradiction].
  apply nth_error_In in E.
  destruct (Promise.canceled s); [contradiction|].
  destruct how as [v|r]; intros H; apply in_app_or in H as [H|H].
  - destruct parent as [q|]; simpl in H; [|contradiction].
    destruct H as [H|[]]. injection H as -> <- <-.
    split; [reflexivity|]. exists c. repeat split; auto. exists v; auto.
  - exfalso. eapply not_to_parent_in; [apply to_parent_notifications | exact H].
  - destruct parent as [q|]; simpl in H; [|contradiction].
    destruct H as [H|[]]. injection H as -> <- <-.
    split; [reflexivity|]. exists c. repeat split; auto. exists r; auto.
  - exfalso. eapply not_to_parent_in; [apply to_parent_failures | exact H].
Qed.

Lemma promise_sends_named parent ops s p e o :
  In (ParentSend p e o) (snd (Promise.run parent ops s)) ->
  parent = Some p
  /\ exists ctx,
       (In ctx (Promise.continuations s)
        \/ In (Promise.Signal ctx startSignal) ops)
       /\ o = self ctx
       /\ exists x, e = doneInvoke (name ctx) (Some x) \/ e = error (name ctx) x.
Proof.
  unfold Promise.run.
  revert s; induction ops as [|op ops IH]; intros s H; [contradiction|].
  cbn [run_with snd] in H. apply in_app_or in H as [H|H].
  - apply promise_step_sends in H as (Hp & ctx & Hin & Ho & Hx).
    split; [exact Hp|]. exists ctx. auto.
  - apply IH in H as (Hp & ctx & [Hin|Hin] & Ho & Hx);
      (split; [exact Hp|]); exists ctx; repeat split; auto.
    + apply promise_step_continuations in Hin as [Hin| ->]; [auto|].
      right. now left.
    + right. now right.
Qed.

(** X7.  Promise behavior: whatever the run, a message that reaches the
    parent is a "done" or an "error" event that carries the name of an actor
    context given with a start of that run and is tagged with that context's
    actor as origin; and it went to the parent the behavior was created
    with. *)
Theorem promise_messages_are_named :
  forall (parent : option ActorRef) (ops : list Promise.Op)
         (p : ActorRef) (e : EventObject) (o : ActorRef),
    In (ParentSend p e o) (snd (Promise.run parent ops Promise.init)) ->
    parent = Some p
    /\ exists ctx,
         In (Promise.Signal ctx startSignal) ops
         /\ o = self ctx
         /\ exists x, e = doneInvoke (name ctx) (Some x) \/ e = error (name ctx) x.
Proof.
  intros parent ops p e o H.
  apply promise_sends_named in H as (Hp & ctx & [[]|Hin] & Ho & Hx).
  split; [exact Hp|]. exists ctx. auto.
Qed.

Lemma promise_messages_are_named_witness :
  exists ctx,
    In (Promise.Signal ctx startSignal)
      [Promise.Signal sample_ctx startSignal; Promise.Settle 0 (Rejected 9%Z)]
    /\ 7 = self ctx
    /\ exists x, ErrorPlatform "child" 9%Z = doneInvoke (name ctx) (Some x)
                 \/ ErrorPlatform "child" 9%Z = error (name ctx) x.
Proof.
  apply (promise_messages_are_named (Some 3)
           [Promise.Signal sample_ctx startSignal; Promise.Settle 0 (Rejected 9%Z)]
           3 (ErrorPlatform "child" 9%Z) 7).
  simpl. auto.
Defined.

(** ** Behaviors without a parent *)

Lemma run_filter_nil {S Op} (step : Op -> Act S unit) (f : Effect -> bool) :
  (forall op s, filter f (emitted (step op s)) = []) ->
  forall ops s, filter f (snd (run_with step ops s)) = [].
Proof.
  intros H; induction ops as [|op ops IH]; intros s; [reflexivity|].
  cbn [run_with snd]. now rewrite filter_app, H, IH.
Qed.

Lemma sent_back_nobody ctx body : sent_back None ctx body = [].
Proof. induction body as [|[e|l] body IH]; simpl; auto. Qed.

Lemma heard_nobody state ls : filter to_parent (flat_map (heard None state) ls) = [].
Proof.
  induction ls as [|[c|o] ls IH]; simpl; auto.
  rewrite filter_app, IH. destruct (on_next o); reflexivity.
Qed.

(** X8.  A behavior created without a parent never attempts a send to a
    parent: no run of a Callback, Promise, Observable or Machine behavior
    with no parent contains one. *)
Theorem no_parent_no_send :
  (forall callback ops,
     filter to_parent (snd (Callback.run callback None ops Callback.init)) = [])
  /\ (forall ops,
        filter to_parent (snd (Promise.run None ops Promise.init)) = [])
  /\ (forall ops,
        filter to_parent (snd (Observable.run None ops Observable.init)) = [])
  /\ (forall machine options ops,
        filter to_parent
          (snd (Machine.run machine None options ops Machine.init)) = []).
Proof.
  split; [|split; [|split]].
  - intros callback ops. apply run_filter_nil. intros op s.
    destruct op as [ctx [|] | ctx ev | ctx e | l | k how]; cbn [Callback.step].
    + rewrite callback_start_eq. cbv zeta. cbn [emitted].
      rewrite sent_back_nobody. now destruct (Callback.canceled s).
    + rewrite callback_stop_eq. cbn [emitted].
      destruct (Callback.isFunction _); reflexivity.
    + rewrite callback_receive_eq. apply to_parent_deliveries.
    + rewrite callback_sender_eq. now destruct (Callback.canceled s).
    + reflexivity.
    + rewrite callback_react_eq.
      destruct (nth_error (Callback.continuations s) k); reflexivity.
  - intros ops. apply run_filter_nil. intros op s.
    destruct op as [ctx [|] | ctx ev | o | o | k how]; try reflexivity.
    cbn [Promise.step]. rewrite promise_react_eq.
    destruct (nth_error (Promise.continuations s) k); [|reflexivity].
    cbn [emitted]. destruct (Promise.canceled s); [reflexivity|].
    destruct how; cbn [sends app];
      [apply to_parent_notifications | apply to_parent_failures].
  - intros ops. apply run_filter_nil. intros op s.
    destruct op as [ctx [|] | ctx ev | o | ctx v | ctx err | ctx]; try reflexivity.
    cbn [Observable.step Observable.receiveSignal]. rewrite bind_gets.
    destruct (Observable.subscription s); reflexivity.
  - intros machine options ops. apply run_filter_nil. intros op s.
    destruct op as [ctx [|] | ctx ev | o | state | output].
    + cbn [Machine.step]. rewrite machine_start_eq. cbn [emitted].
      destruct (Machine.options_sync options); reflexivity.
    + cbn [Machine.step]. rewrite machine_stop_eq.
      destruct (Machine.service s); [|reflexivity].
      destruct (Machine.subscription s); reflexivity.
    + cbn [Machine.step]. unfold Machine.receive. rewrite machine_on_service_eq.
      destruct (Machine.service s); reflexivity.
    + rewrite machine_step_eq_subscribe.
      destruct (Machine.service s); reflexivity.
    + cbn [Machine.step]. rewrite machine_transition_eq.
      destruct (Machine.service s) as [i|]; [|reflexivity].
      destruct (Interpreter.status i); try reflexivity. apply heard_nobody.
    + cbn [Machine.step]. rewrite machine_done_eq.
      destruct (Machine.service s) as [i|]; [|reflexivity].
      destruct (Interpreter.status i); try reflexivity. cbn [emitted].
      induction (Interpreter.doneListeners i); simpl; auto.
Qed.

(** ** Machine behavior *)

Lemma machine_step_service machine parent options op s :
  Machine.service s <> None ->
  Machine.service (final (Machine.step machine parent options op s)) <> None
  /\ returned_normally (Machine.step machine parent options op s) = true.
Proof.
  destruct s as [[i|] sub]; [intros _ | intros H; contradiction].
  destruct op as [ctx [|] | ctx ev | o | state | output].
  - cbn [Machine.step]. rewrite machine_start_eq. split; [discriminate | reflexivity].
  - cbn [Machine.step]. rewrite machine_stop_eq. cbn [Machine.service Machine.subscription].
    destruct sub; split; try discriminate; reflexivity.
  - cbn [Machine.step]. unfold Machine.receive. rewrite machine_on_service_eq.
    split; [discriminate | reflexivity].
  - rewrite machine_step_eq_subscribe. split; [discriminate | reflexivity].
  - cbn [Machine.step]. rewrite machine_transition_eq. cbn [Machine.service].
    destruct (Interpreter.status i); split; try discriminate; reflexivity.
  - cbn [Machine.step]. rewrite machine_done_eq. cbn [Machine.service].
    destruct (Interpreter.status i); split; try discriminate; reflexivity.
Qed.

Lemma machine_service_stays machine parent options ops s :
  Machine.service s <> None ->
  Machine.service (fst (Machine.run machine parent options ops s)) <> None.
Proof.
  unfold Machine.run. revert s; induction ops as [|op ops IH]; intros s H; [exact H|].
  cbn [run_with fst]. apply IH. now apply machine_step_service.
Qed.

(** X9.  Machine behavior on which a start has been processed: from then on
    there is a service, whatever else has happened since (a stop or another
    start included), so no operation throws any more and [subscribe] returns
    a handle. *)
Theorem machine_after_start_never_throws :
  forall (machine : MachineNode) (parent : option ActorRef)
         (options : option Machine.InterpreterOptions)
         (before later : list Machine.Op) (ctx : ActorContext)
         (op : Machine.Op) (observer : Observer),
    let s :=
      fst (Machine.run machine parent options
             (before ++ Machine.Signal ctx startSignal :: later) Machine.init) in
    Machine.service s <> None
    /\ returned_normally (Machine.step machine parent options op s) = true
    /\ exists s' out,
         Machine.subscribe observer s = Returns (Some (Outside observer)) s' out.
Proof.
  intros machine parent options before later ctx op observer s.
  assert (H : Machine.service s <> None).
  { subst s. unfold Machine.run. rewrite run_with_app. cbn [run_with fst].
    apply (machine_service_stays machine parent options).
    cbn [Machine.step]. rewrite machine_start_eq. discriminate. }
  split; [exact H|]. split; [now apply machine_step_service|].
  rewrite machine_subscribe_eq. destruct (Machine.service s); [eauto | contradiction].
Qed.

Lemma relays_after_add o ls :
  filter is_relay (set_add Listener_eq_dec (Outside o) ls) = filter is_relay ls.
Proof.
  induction ls as [|l ls IH]; [reflexivity|].
  cbn [set_add]. destruct (Listener_eq_dec (Outside o) l); [reflexivity|].
  cbn [filter]. now rewrite IH.
Qed.

Lemma heard_by_relays p state ls :
  filter to_parent (flat_map (heard (Some p) state) ls)
  = flat_map (heard (Some p) state) (filter is_relay ls).
Proof.
  induction ls as [|[c|o] ls IH]; simpl; [reflexivity| |].
  - now rewrite IH.
  - rewrite filter_app, IH. destruct (on_next o); reflexivity.
Qed.

(** A started interpreter keeps its identity, its one completion hook and
    its relays through every operation that is no lifecycle signal. *)
Lemma machine_running_run machine parent options ctx relays between :
  forallb machine_no_signal between = true ->
  forall s i,
    Machine.service s = Some i ->
    Interpreter.status i = Interpreter.Running ->
    Interpreter.id i = name ctx ->
    Interpreter.doneListeners i = [ctx] ->
    filter is_relay (Interpreter.listeners i) = relays ->
    exists i',
      Machine.service (fst (Machine.run machine parent options between s)) = Some i'
      /\ Interpreter.status i' = Interpreter.Running
      /\ Interpreter.id i' = name ctx
      /\ Interpreter.doneListeners i' = [ctx]
      /\ filter is_relay (Interpreter.listeners i') = relays.
Proof.
  unfold Machine.run.
  induction between as [|op ops IH]; intros Hops [sv sub] i Hs Hrun Hid Hd Hl.
  - exists i. auto.
  - simpl in Hops. apply andb_prop in Hops as [Hop Hops].
    simpl in Hs. subst sv. cbn [run_with fst].
    destruct op as [c sg | c ev | o | state | output]; try discriminate.
    + cbn [Machine.step]. unfold Machine.receive. rewrite machine_on_service_eq.
      cbn [final Machine.service Machine.set_service].
      apply (IH Hops _ i); auto.
    + rewrite machine_step_eq_subscribe.
      cbn [final Machine.service Machine.set_service].
      apply (IH Hops _ (Interpreter.call (CSubscribe (Outside o)) i)); auto.
      cbn [Interpreter.call Interpreter.listeners Interpreter.set_listeners].
      now rewrite relays_after_add.
    + cbn [Machine.step]. rewrite machine_transition_eq.
      cbn [Machine.service]. rewrite Hrun.
      cbn [final Machine.set_service].
      apply (IH Hops _ (Interpreter.set_current state i)); auto.
    + cbn [Machine.step]. rewrite machine_done_eq.
      cbn [Machine.service]. rewrite Hrun. cbn [final].
      apply (IH Hops _ i); auto.
Qed.

(** X10.  Machine behavior with a parent, started once and not stopped since:
    when the nested interpreter reports completion, the parent gets exactly
    one "done" event, named after the actor context of the start and tagged
    with its actor as origin; when the nested interpreter reports a new
    state, the parent gets exactly one "update" event with that state if the
    sync option is set, and nothing otherwise. *)
Theorem machine_relays_to_parent :
  forall (machine : MachineNode) (p : ActorRef)
         (options : option Machine.InterpreterOptions) (ctx : ActorContext)
         (before between : list Machine.Op),
    forallb machine_not_start before = true ->
    forallb machine_no_signal between = true ->
    let s :=
      fst (Machine.run machine (Some p) options
             (before ++ Machine.Signal ctx startSignal :: between) Machine.init) in
    (forall output,
       emitted (Machine.done (Some p) output s)
       = [ParentSend p (doneInvoke (name ctx) output) (self ctx)])
    /\ (forall state,
          filter to_parent (emitted (Machine.transition (Some p) state s))
          = if Machine.options_sync options
            then [ParentSend p (Update state) (self ctx)] else []).
Proof.
  intros machine p options ctx before between Hb Hm s.
  assert (Hs : exists i,
             Machine.service s = Some i
             /\ Interpreter.status i = Interpreter.Running
             /\ Interpreter.id i = name ctx
             /\ Interpreter.doneListeners i = [ctx]
             /\ filter is_relay (Interpreter.listeners i)
                = if Machine.options_sync options then [Relay ctx] else []).
  { subst s. unfold Machine.run. rewrite run_with_app. cbn [run_with fst].
    pose proof (machine_unstarted_run machine (Some p) options before Hb) as E.
    unfold Machine.run in E. rewrite E.
    cbn [Machine.step]. rewrite machine_start_eq. cbn [final].
    eapply (machine_running_run machine (Some p) options ctx); eauto;
      try reflexivity.
    simpl. destruct (Machine.options_sync options); reflexivity. }
  destruct Hs as (i & Hsv & Hrun & Hid & Hd & Hl). split.
  - intros output. rewrite machine_done_eq, Hsv, Hrun, Hd, Hid. reflexivity.
  - intros state. rewrite machine_transition_eq, Hsv, Hrun. cbn [emitted].
    rewrite heard_by_relays, Hl.
    destruct (Machine.options_sync options); reflexivity.
Qed.

Lemma machine_relays_to_parent_witness :
  filter to_parent
    (emitted
       (Machine.transition (Some 3) 4
          (fst (Machine.run sample_machine (Some 3) (Some {| Machine.sync := true |})
                  [Machine.Subscribe (sample_observer 1);
                   Machine.Signal sample_ctx startSignal;
                   Machine.Subscribe (sample_observer 2);
                   Machine.Transition 1] Machine.init))))
  = [ParentSend 3 (Update 4) 7].
Proof.
  destruct (machine_relays_to_parent sample_machine 3
              (Some {| Machine.sync := true |}) sample_ctx
              [Machine.Subscribe (sample_observer 1)]
              [Machine.Subscribe (sample_observer 2); Machine.Transition 1]
              eq_refl eq_refl) as (_ & H).
  exact (H 4).
Defined.

(** ** The dispatch factory *)

(** X11.  [createBehaviorFrom] returns a behavior exactly when at least one of
    its four shape tests passes; the only way it fails is the error "Unable to
    create behavior from entity", and then none of the tests passes. *)
Theorem createBehaviorFrom_total :
  forall (entity : Spawnable) (parent : option ActorRef),
    (some_shape entity = true <->
     exists b, createBehaviorFrom entity parent = Ok b)
    /\ (forall e, createBehaviorFrom entity parent = Thrown e ->
                  some_shape entity = false
                  /\ e = Error "Unable to create behavior from entity").
Proof.
  intros entity parent.
  unfold createBehaviorFrom, some_shape, isMachineNode, isFunction.
  destruct (isPromiseLike entity), (isObservable entity),
    (machineNode entity), (invokeCallback entity); simpl;
    (split;
     [split;
      [intros H; first [discriminate H | eexists; reflexivity]
      |intros [b H]; first [reflexivity | discriminate H]]
     |intros e H; first [discriminate H | injection H as <-; split; reflexivity]]).
Qed.

Lemma createBehaviorFrom_total_witness :
  (exists b, createBehaviorFrom only_function (Some 3) = Ok b)
  /\ some_shape no_shape = false.
Proof.
  split.
  - apply (createBehaviorFrom_total only_function (Some 3)). reflexivity.
  - destruct (createBehaviorFrom_total no_shape (Some 3)) as [_ H].
    exact (proj1 (H (Error "Unable to create behavior from entity") eq_refl)).
Defined.

(** X12.  A Machine behavior that comes out of [createBehaviorFrom] was
    created without options: it is not synchronised, and no run of it sends
    an "update" event to the parent. *)
Theorem factory_machine_is_unsynchronised :
  forall (entity : Spawnable) (parent : option ActorRef)
         (machine : MachineNode) (options : option Machine.InterpreterOptions)
         (s : Machine.State) (ops : list Machine.Op),
    createBehaviorFrom entity parent = Ok (MachineBehavior machine parent options s) ->
    options = None /\ s = Machine.init
    /\ Forall (fun e => ~ is_update e)
         (snd (Machine.run machine parent options ops s)).
Proof.
  intros entity parent machine options s ops H.
  assert (E : options = None /\ s = Machine.init).
  { unfold createBehaviorFrom in H.
    destruct (isPromiseLike entity); [discriminate|].
    destruct (isObservable entity); [discriminate|].
    destruct (machineNode entity); [injection H as _ <- <-; auto|].
    destruct (invokeCallback entity); discriminate. }
  destruct E as [-> ->]. repeat split.
  apply (keeps_run _ _ _
           (fun op => machine_step_unsynced machine parent None op eq_refl)
           ops Machine.init).
  intros i [=].
Qed.

Lemma factory_machine_is_unsynchronised_witness :
  Forall (fun e => ~ is_update e)
    (snd (Machine.run sample_machine (Some 3) None
            [Machine.Signal sample_ctx startSignal; Machine.Transition 2]
            Machine.init)).
Proof.
  apply (factory_machine_is_unsynchronised machine_and_function (Some 3)
           sample_machine None Machine.init
           [Machine.Signal sample_ctx startSignal; Machine.Transition 2]).
  reflexivity.
Defined.

(** ** Service behavior *)





(** ** Observable behavior *)



Lemma observable_subscription parent ops before s :
  Observable.subscription s = before ->
  Observable.subscription (fst (Observable.run parent ops s)) = last_start before ops.
Proof.
  unfold Observable.run.
  revert before s; induction ops as [|op ops IH]; intros before s H; [exact H|].
  cbn [run_with fst].
  destruct op as [ctx [|] | ctx ev | o | ctx v | ctx e | ctx];
    cbn [last_start]; apply IH; try exact H.
  - reflexivity.
  - cbn [Observable.step Observable.receiveSignal]. rewrite bind_gets.
    destruct (Observable.subscription s) eqn:E; simpl; congruence.
  - destruct parent; exact H.
  - destruct parent; exact H.
  - destruct parent; exact H.
Qed.

(** X15.  Observable behavior, after any run: [receiveSignal(stop)]
    unsubscribes the subscription made by the last start, and only that one
    (a subscription made by an earlier start is never unsubscribed); it does
    so again at every further stop; and before the first start it does
    nothing. *)
Theorem observable_stop_unsubscribes_latest :
  forall (parent : option ActorRef) (ops : list Observable.Op)
         (ctx : ActorContext),
    let s := fst (Observable.run parent ops Observable.init) in
    Observable.receiveSignal ctx stopSignal s
    = Returns tt s
        match last_start None ops with
        | Some started => [SourceUnsubscribe started]
        | None => []
        end.
Proof.
  intros parent ops ctx s.
  pose proof (observable_subscription parent ops None Observable.init eq_refl) as H.
  fold s in H. unfold Observable.receiveSignal. rewrite bind_gets, H.
  destruct (last_start None ops); reflexivity.
Qed.


(** ** Settlement in a Callback behavior, stop in a Machine behavior *)

Lemma callback_quiet_run callback parent ops s :
  forallb callback_quiet ops = true ->
  Callback.continuations (fst (Callback.run callback parent ops s))
  = Callback.continuations s
  /\ Callback.canceled (fst (Callback.run callback parent ops s))
     = Callback.canceled s.
Proof.
  unfold Callback.run.
  revert s; induction ops as [|op ops IH]; intros s H; [simpl; auto|].
  simpl in H. apply andb_prop in H as [Hop Hops].
  cbn [run_with fst]. destruct (IH (final (Callback.step callback parent op s)) Hops)
    as [-> ->].
  destruct op as [ctx sg | ctx ev | ctx e | l | k how]; try discriminate;
    cbn [Callback.step].
  - now rewrite callback_receive_eq.
  - now rewrite callback_sender_eq.
  - split; reflexivity.
Qed.

(** X16.  Callback behavior with a parent, started once on a wrapped function
    that returns a deferred value, and not stopped: when that value settles,
    the parent gets one "done" event with the resolved value, or one "error"
    event with the reason, named after the actor context of the start and
    tagged with its actor as origin; the flag is set by it, and from then on
    what the wrapped function sends back no longer reaches the parent. *)
Theorem callback_settlement_reports :
  forall (callback : Callback.InvokeCallback) (p : ActorRef)
         (ctx ctx' : ActorContext) (how : Settlement) (e : EventObject)
         (between : list Callback.Op),
    Callback.isPromiseLike (Callback.returned callback) = true ->
    forallb callback_quiet between = true ->
    let s :=
      fst (Callback.run callback (Some p)
             (Callback.Signal ctx startSignal :: between) Callback.init) in
    let settled := Callback.react (Some p) 0 how s in
    emitted settled
    = [ParentSend p
         match how with
         | Fulfilled v => doneInvoke (name ctx) (Some v)
         | Rejected r => error (name ctx) r
         end (self ctx)]
    /\ Callback.canceled (final settled) = true
    /\ emitted (Callback.sender (Some p) ctx' e s) = [ParentSend p e (self ctx')]
    /\ emitted (Callback.sender (Some p) ctx' e (final settled)) = [].
Proof.
  intros callback p ctx ctx' how e between Hthen Hq s settled.
  assert (Hs : Callback.continuations s = [ctx] /\ Callback.canceled s = false).
  { subst s. unfold Callback.run. cbn [run_with fst Callback.step].
    destruct (callback_quiet_run callback (Some p) between
                (final (Callback.receiveSignal callback (Some p) ctx startSignal
                          Callback.init)) Hq) as [Hk Hc].
    unfold Callback.run in Hk, Hc. rewrite Hk, Hc.
    rewrite callback_start_eq. cbv zeta. rewrite Hthen. split; reflexivity. }
  destruct Hs as [Hk Hc]. subst settled.
  rewrite callback_react_eq, Hk. cbn [nth_error final emitted].
  rewrite !callback_sender_eq. cbn [emitted Callback.canceled Callback.set_canceled].
  rewrite Hc. repeat split; reflexivity.
Qed.

Lemma callback_settlement_reports_witness :
  emitted
    (Callback.react (Some 3) 0 (Rejected 9%Z)
       (fst (Callback.run deferred_callback (Some 3)
               [Callback.Signal sample_ctx startSignal;
                Callback.Emit sample_ctx (Custom "early" 1%Z)] Callback.init)))
  = [ParentSend 3 (ErrorPlatform "child" 9%Z) 7].
Proof.
  exact (proj1 (callback_settlement_reports deferred_callback 3 sample_ctx
                  sample_ctx (Rejected 9%Z) (Custom "late" 2%Z)
                  [Callback.Emit sample_ctx (Custom "early" 1%Z)]
                  eq_refl eq_refl)).
Defined.

Lemma machine_subscription_tracks machine parent options ops before s :
  Machine.subscription s
  = (if Machine.options_sync options then option_map Relay before else None) ->
  (Machine.service s = None <-> before = None) ->
  let s' := fst (Machine.run machine parent options ops s) in
  Machine.subscription s'
  = (if Machine.options_sync options
     then option_map Relay (machine_last_start before ops) else None)
  /\ (Machine.service s' = None <-> machine_last_start before ops = None).
Proof.
  unfold Machine.run.
  revert before s; induction ops as [|op ops IH]; intros before [sv sub] Hsub Hsv;
    [split; assumption|].
  cbn [run_with fst]. simpl in Hsub, Hsv.
  destruct op as [ctx [|] | ctx ev | o | state | output]; cbn [machine_last_start].
  - apply IH; cbn [Machine.step]; rewrite machine_start_eq; cbn [final].
    + simpl. destruct (Machine.options_sync options); [reflexivity | exact Hsub].
    + simpl. split; discriminate.
  - apply IH; cbn [Machine.step]; rewrite machine_stop_eq;
      cbn [Machine.service Machine.subscription];
      destruct sv as [i|]; try destruct sub as [l|]; simpl; try assumption;
      (split; [discriminate | intros H; apply Hsv in H; discriminate]).
  - apply IH; cbn [Machine.step]; unfold Machine.receive;
      rewrite machine_on_service_eq; cbn [Machine.service];
      destruct sv as [i|]; simpl; try assumption;
      (split; [discriminate | intros H; apply Hsv in H; discriminate]).
  - apply IH; rewrite machine_step_eq_subscribe; cbn [Machine.service];
      destruct sv as [i|]; simpl; try assumption;
      (split; [discriminate | intros H; apply Hsv in H; discriminate]).
  - apply IH; cbn [Machine.step]; rewrite machine_transition_eq;
      cbn [Machine.service];
      destruct sv as [i|]; try destruct (Interpreter.status i); simpl;
      try assumption;
      (split; [discriminate | intros H; apply Hsv in H; discriminate]).
  - apply IH; cbn [Machine.step]; rewrite machine_done_eq;
      cbn [Machine.service];
      destruct sv as [i|]; try destruct (Interpreter.status i); simpl;
      assumption.
Qed.

(** X17.  Machine behavior, after any run: [receiveSignal(stop)] throws if no
    start was processed; otherwise it stops the service and then, if the sync
    option is set, unsubscribes the relay registered by the last start, and
    makes no other call. *)
Theorem machine_stop_calls :
  forall (machine : MachineNode) (parent : option ActorRef)
         (options : option Machine.InterpreterOptions) (ops : list Machine.Op)
         (ctx : ActorContext),
    let s := fst (Machine.run machine parent options ops Machine.init) in
    let stopped := Machine.receiveSignal machine parent options ctx stopSignal s in
    match machine_last_start None ops with
    | None => returned_normally stopped = false /\ emitted stopped = []
    | Some started =>
        returned_normally stopped = true
        /\ emitted stopped
           = OnService CStop
             :: if Machine.options_sync options
                then [OnService (CUnsubscribe (Relay started))] else []
    end.
Proof.
  intros machine parent options ops ctx s stopped.
  destruct (machine_subscription_tracks machine parent options ops None Machine.init)
    as [Hsub Hsv]; [simpl; now destruct (Machine.options_sync options) | tauto |].
  fold s in Hsub, Hsv. subst stopped. rewrite machine_stop_eq.
  destruct (machine_last_start None ops) as [started|].
  - destruct (Machine.service s) as [i|];
      [|destruct Hsv as [H _]; discriminate (H eq_refl)].
    rewrite Hsub. destruct (Machine.options_sync options); split; reflexivity.
  - destruct Hsv as [_ H]. rewrite (H eq_refl). split; reflexivity.
Qed.
